(** * Style store, maintenance and weighted selection of the learning-style plugin

    Shallow embedding of [src/learning_style/data_manager.py],
    [src/learning_style/scheduler.py] and [src/learning_style/style_selector.py].

    Modelling conventions:
    - A Python dict keyed by session id is a [gmap string _]; a JSON style
      record is the record [Style] with all its fields present.
    - Timestamps (the event loop's [time()]) are integer seconds ([Z]);
      [int(x / 86400)] is truncating division [Z.quot].
    - The asynchronous lock and the event loop are sequentialised: every
      operation is a function on the whole [DataManager] state.  The pending
      save task ([self._save_timer]) is an optional task number; creating a
      task draws a fresh number.
    - File writes are driven by an oracle stream [io] of outcomes held in the
      state; an exhausted stream means the write succeeds. *)

From Stdlib Require Import ZArith Lia QArith Permutation Sorted.
From stdpp Require Import base gmap list strings.

Open Scope Z_scope.

(** ** Data model *)

Record Style := mkStyle {
  content : string;
  type : string;
  proficiency : Z;
  created_at : Z;
  last_updated : Z
}.

Record Msg := mkMsg {
  sender : string;
  msg_content : string;
  timestamp : Z
}.

#[global] Instance Style_eq_dec : EqDecision Style.
Proof. solve_decision. Defined.

Abbreviation StyleMap := (gmap string (list Style)).
Abbreviation HistoryMap := (gmap string (list Msg)).

(** Outcome of one [open(..., "w")] + [json.dump]: success, an [IOError]
    raised by [open] (file untouched) or raised while dumping (the file was
    already truncated and holds a partial document). *)
Inductive write_outcome := WriteOk | WriteFailOpen | WriteFailDump.

Inductive file_state (A : Type) :=
  | FileMissing
  | FileJson (contents : A)
  | FilePartial.
Arguments FileMissing {A}.
Arguments FileJson {A} _.
Arguments FilePartial {A}.

Record DataManager := mkDM {
  styles : StyleMap;
  chat_history : HistoryMap;
  dirty_styles : bool;
  dirty_chat_history : bool;
  save_timer : option nat;
  task_counter : nat;
  styles_file : file_state StyleMap;
  chat_history_file : file_state HistoryMap;
  io : list write_outcome
}.

(** Field updates. *)
Definition set_styles (m : StyleMap) (st : DataManager) : DataManager :=
  mkDM m (chat_history st) (dirty_styles st) (dirty_chat_history st)
    (save_timer st) (task_counter st) (styles_file st) (chat_history_file st) (io st).
Definition set_chat_history (m : HistoryMap) (st : DataManager) : DataManager :=
  mkDM (styles st) m (dirty_styles st) (dirty_chat_history st)
    (save_timer st) (task_counter st) (styles_file st) (chat_history_file st) (io st).
Definition set_dirty_styles (b : bool) (st : DataManager) : DataManager :=
  mkDM (styles st) (chat_history st) b (dirty_chat_history st)
    (save_timer st) (task_counter st) (styles_file st) (chat_history_file st) (io st).
Definition set_dirty_chat_history (b : bool) (st : DataManager) : DataManager :=
  mkDM (styles st) (chat_history st) (dirty_styles st) b
    (save_timer st) (task_counter st) (styles_file st) (chat_history_file st) (io st).
Definition set_save_timer (t : option nat) (st : DataManager) : DataManager :=
  mkDM (styles st) (chat_history st) (dirty_styles st) (dirty_chat_history st)
    t (task_counter st) (styles_file st) (chat_history_file st) (io st).

(** [_schedule_save]: cancel the pending task (if any) and create a new one
    running [_delayed_save]. *)
Definition _schedule_save (st : DataManager) : DataManager :=
  let n := S (task_counter st) in
  mkDM (styles st) (chat_history st) (dirty_styles st) (dirty_chat_history st)
    (Some n) n (styles_file st) (chat_history_file st) (io st).

(** Draw the outcome of the next file write. *)
Definition next_write (st : DataManager) : write_outcome * list write_outcome :=
  match io st with
  | [] => (WriteOk, [])
  | o :: rest => (o, rest)
  end.

(** ** add_or_update_style *)

Definition style_matches (c t : string) (s : Style) : Prop :=
  content s = c /\ type s = t.
#[global] Instance style_matches_dec c t s : Decision (style_matches c t s).
Proof. unfold style_matches. solve_decision. Defined.

(** [style["proficiency"] = min(100, style.get("proficiency", 0) + 10)];
    [style["last_updated"] = current_time]. *)
Definition bump_style (now : Z) (s : Style) : Style :=
  mkStyle (content s) (type s) (Z.min 100 (proficiency s + 10)) (created_at s) now.

Definition new_style (c t : string) (now : Z) : Style :=
  mkStyle c t 10 now now.

(** The [for style in self.styles[session_id]] loop: the first matching
    record is updated in place and the method returns; [None] means the loop
    ran to its end. *)
Fixpoint upsert_scan (c t : string) (now : Z) (l : list Style) : option (list Style) :=
  match l with
  | [] => None
  | s :: rest =>
      if decide (style_matches c t s) then Some (bump_style now s :: rest)
      else match upsert_scan c t now rest with
           | Some rest' => Some (s :: rest')
           | None => None
           end
  end.

Definition add_or_update_style (st : DataManager) (session_id c t : string) (now : Z)
  : DataManager :=
  let st1 := match styles st !! session_id with
             | Some _ => st
             | None => set_styles (<[session_id := []]> (styles st)) st
             end in
  let l := default [] (styles st1 !! session_id) in
  match upsert_scan c t now l with
  | Some l' =>
      _schedule_save (set_dirty_styles true (set_styles (<[session_id := l']> (styles st1)) st1))
  | None =>
      _schedule_save (set_dirty_styles true
        (set_styles (<[session_id := l ++ [new_style c t now]]> (styles st1)) st1))
  end.

Definition set_styles_file (f : file_state StyleMap) (st : DataManager) : DataManager :=
  mkDM (styles st) (chat_history st) (dirty_styles st) (dirty_chat_history st)
    (save_timer st) (task_counter st) f (chat_history_file st) (io st).
Definition set_chat_history_file (f : file_state HistoryMap) (st : DataManager)
  : DataManager :=
  mkDM (styles st) (chat_history st) (dirty_styles st) (dirty_chat_history st)
    (save_timer st) (task_counter st) (styles_file st) f (io st).
Definition set_io (o : list write_outcome) (st : DataManager) : DataManager :=
  mkDM (styles st) (chat_history st) (dirty_styles st) (dirty_chat_history st)
    (save_timer st) (task_counter st) (styles_file st) (chat_history_file st) o.

(** ** Persistence *)

(** [save_styles]: dump [self.styles]; the dirty flag is cleared only after a
    successful dump; an [IOError] is logged and swallowed. *)
Definition save_styles (st : DataManager) : DataManager :=
  let '(o, rest) := next_write st in
  let st := set_io rest st in
  match o with
  | WriteOk => set_dirty_styles false (set_styles_file (FileJson (styles st)) st)
  | WriteFailOpen => st
  | WriteFailDump => set_styles_file FilePartial st
  end.

Definition save_chat_history (st : DataManager) : DataManager :=
  let '(o, rest) := next_write st in
  let st := set_io rest st in
  match o with
  | WriteOk =>
      set_dirty_chat_history false (set_chat_history_file (FileJson (chat_history st)) st)
  | WriteFailOpen => st
  | WriteFailDump => set_chat_history_file FilePartial st
  end.

(** Body of the task created by [_schedule_save], once its sleep is over. *)
Definition _delayed_save (st : DataManager) : DataManager :=
  let st := if dirty_styles st then save_styles st else st in
  let st := if dirty_chat_history st then save_chat_history st else st in
  set_save_timer None st.

Definition force_save (st : DataManager) : DataManager :=
  let st := match save_timer st with
            | Some _ => set_save_timer None st
            | None => st
            end in
  let st := if dirty_styles st then save_styles st else st in
  if dirty_chat_history st then save_chat_history st else st.

(** ** Chat history *)

(** Python slices with a possibly negative bound: [l[k:]] and [l[:k]]. *)
Definition py_slice_from {A} (l : list A) (k : Z) : list A :=
  if k <? 0 then skipn (Z.to_nat (Z.of_nat (length l) + k)) l
  else skipn (Z.to_nat k) l.

Definition py_slice_to {A} (l : list A) (k : Z) : list A :=
  if k <? 0 then firstn (Z.to_nat (Z.of_nat (length l) + k)) l
  else firstn (Z.to_nat k) l.

Definition add_message_to_history (st : DataManager) (session_id : string) (m : Msg)
  : DataManager :=
  let h := default [] (chat_history st !! session_id) in
  _schedule_save (set_dirty_chat_history true
    (set_chat_history (<[session_id := h ++ [m]]> (chat_history st)) st)).

(** [self.chat_history.get(session_id, [])[-limit:]] *)
Definition get_chat_history (st : DataManager) (session_id : string) (limit : Z)
  : list Msg :=
  py_slice_from (default [] (chat_history st !! session_id)) (- limit).

Definition clear_chat_history (st : DataManager) (session_id : string) : DataManager :=
  match chat_history st !! session_id with
  | Some _ =>
      _schedule_save (set_dirty_chat_history true
        (set_chat_history (<[session_id := []]> (chat_history st)) st))
  | None => st
  end.

(** ** Python's [sorted] (stable), by an integer key *)

Section StableSort.
Context {A : Type} (key : A -> Z).

(** [x] goes after every element that [sorted] keeps before it. *)
Fixpoint insert_asc (x : A) (l : list A) : list A :=
  match l with
  | [] => [x]
  | y :: l' => if key y <=? key x then y :: insert_asc x l' else x :: l
  end.

Definition sort_asc (l : list A) : list A :=
  fold_left (fun acc x => insert_asc x acc) l [].

(** [sorted(..., reverse=True)] keeps equal keys in their original order. *)
Fixpoint insert_desc (x : A) (l : list A) : list A :=
  match l with
  | [] => [x]
  | y :: l' => if key x <=? key y then y :: insert_desc x l' else x :: l
  end.

Definition sort_desc (l : list A) : list A :=
  fold_left (fun acc x => insert_desc x acc) l [].
End StableSort.

(** ** Maintenance *)

Record Config := mkConfig {
  proficiency_decay_rate : Z;     (* config.get("proficiency_decay_rate", 1) *)
  max_styles_per_session : Z      (* config.get("max_styles_per_session", 100) *)
}.

Definition default_config : Config := mkConfig 1 100.

(** Decay of one record (inner loop body of [_perform_decay] and of
    [perform_maintenance]). *)
Definition decay_style (now rate : Z) (s : Style) : Style :=
  let time_since_update := now - last_updated s in
  let decay_amount := Z.quot time_since_update 86400 * rate in
  if 0 <? decay_amount then
    mkStyle (content s) (type s) (Z.max 0 (proficiency s - decay_amount)) (created_at s) now
  else s.

Definition decay_styles (now rate : Z) (m : StyleMap) : StyleMap :=
  fmap (map (decay_style now rate)) m.

(** [[s for s in styles if s.get("proficiency", 0) > 0]] *)
Definition drop_exhausted (l : list Style) : list Style :=
  filter (fun s => 0 < proficiency s) l.

(** Capacity limit of one session. *)
Definition cap_session (max_styles : Z) (l : list Style) : list Style :=
  if max_styles <? Z.of_nat (length l) then
    py_slice_from (sort_asc proficiency l) (- max_styles)
  else l.

Definition cleanup_styles (max_styles : Z) (m : StyleMap) : StyleMap :=
  fmap (cap_session max_styles) (fmap drop_exhausted m).

(** [Scheduler._perform_decay] *)
Definition _perform_decay (cfg : Config) (now : Z) (st : DataManager) : DataManager :=
  save_styles (set_styles (decay_styles now (proficiency_decay_rate cfg) (styles st)) st).

(** [Scheduler._perform_cleanup] *)
Definition _perform_cleanup (cfg : Config) (st : DataManager) : DataManager :=
  save_styles (set_styles (cleanup_styles (max_styles_per_session cfg) (styles st)) st).

(** One iteration of [Scheduler._run_maintenance], after its sleep. *)
Definition run_maintenance_step (cfg : Config) (now : Z) (st : DataManager) : DataManager :=
  _perform_cleanup cfg (_perform_decay cfg now st).

(** [DataManager.perform_maintenance] *)
Definition perform_maintenance (cfg : Config) (now : Z) (st : DataManager) : DataManager :=
  let m := decay_styles now (proficiency_decay_rate cfg) (styles st) in
  let m := cleanup_styles (max_styles_per_session cfg) m in
  _schedule_save (set_dirty_styles true (set_styles m st)).

(** ** Weighted selection ([StyleSelector._weighted_random_selection]) *)

Definition sum_proficiency (l : list Style) : Z :=
  fold_right (fun s acc => proficiency s + acc) 0 l.

(** The inner walk: accumulate proficiency and return the first record whose
    cumulative proficiency reaches the draw [r]. *)
Fixpoint pick_style (r : Q) (cumulative : Z) (l : list Style) : option Style :=
  match l with
  | [] => None
  | s :: rest =>
      let cumulative := cumulative + proficiency s in
      if Qle_bool r (inject_Z cumulative) then Some s
      else pick_style r cumulative rest
  end.

(** [list.remove]: delete the first element equal to [x]. *)
Fixpoint list_remove (x : Style) (l : list Style) : list Style :=
  match l with
  | [] => []
  | y :: l' => if decide (x = y) then l' else y :: list_remove x l'
  end.

(** [random.random()] values in [0, 1); an exhausted stream yields 0. *)
Definition next_random (draws : list Q) : Q * list Q :=
  match draws with
  | [] => (0%Q, [])
  | u :: rest => (u, rest)
  end.

(** The [for _ in range(...)] loop: [fuel] iterations left, [remaining] the
    eligible candidates, [selected] the contents chosen so far.
    [random.uniform(0, t)] is [0 + t * random.random()]. *)
Fixpoint selection_loop (fuel : nat) (remaining : list Style) (draws : list Q)
    (selected : list string) : list string :=
  match fuel with
  | O => selected
  | S fuel' =>
      match remaining with
      | [] => selected
      | _ :: _ =>
          let current_total := sum_proficiency remaining in
          if current_total <=? 0 then selected
          else
            let '(u, draws') := next_random draws in
            let r := (inject_Z current_total * u)%Q in
            match pick_style r 0 remaining with
            | Some s =>
                selection_loop fuel' (list_remove s remaining) draws'
                  (selected ++ [content s])
            | None => selection_loop fuel' remaining draws' selected
            end
      end
  end.

Definition _weighted_random_selection (styles0 : list Style) (max_count : Z)
    (draws : list Q) : list string :=
  match styles0 with
  | [] => []
  | _ :: _ =>
      let styles1 := sort_desc proficiency styles0 in
      let total_proficiency := sum_proficiency styles1 in
      if total_proficiency <=? 0 then map content (py_slice_to styles1 max_count)
      else
        selection_loop (Z.to_nat (Z.min max_count (Z.of_nat (length styles1))))
          styles1 draws []
  end.

(** [get_styles_for_session] *)
Definition get_styles_for_session (st : DataManager) (session_id : string) : list Style :=
  default [] (styles st !! session_id).

(** ** Mutations of the store, as issued by the plugin between two flushes *)

Inductive mutation :=
  | MUpsert (session_id c t : string) (now : Z)
  | MAddMessage (session_id : string) (m : Msg)
  | MClearHistory (session_id : string)
  | MMaintenance (cfg : Config) (now : Z).

Definition apply_mutation (st : DataManager) (mu : mutation) : DataManager :=
  match mu with
  | MUpsert sid c t now => add_or_update_style st sid c t now
  | MAddMessage sid m => add_message_to_history st sid m
  | MClearHistory sid => clear_chat_history st sid
  | MMaintenance cfg now => perform_maintenance cfg now st
  end.

Definition apply_mutations (st : DataManager) (mus : list mutation) : DataManager :=
  fold_left apply_mutation mus st.

(** Repeated [add_or_update_style] calls of one pair, at the given times. *)
Definition upsert_times (st : DataManager) (session_id c t : string) (nows : list Z)
  : DataManager :=
  fold_left (fun st now => add_or_update_style st session_id c t now) nows st.

(** ** StyleSelector.select_styles_for_session and build_style_prompt *)

Definition is_kind (kind : string) (min_proficiency : Z) (s : Style) : bool :=
  String.eqb (type s) kind && (min_proficiency <=? proficiency s).

(** The two calls of [_weighted_random_selection] share the global random
    generator; [draws_lang] and [draws_gram] are the values each call reads. *)
Definition select_styles_for_session (st : DataManager) (session_id : string)
    (max_styles min_proficiency : Z) (draws_lang draws_gram : list Q)
    : list string * list string :=
  match get_styles_for_session st session_id with
  | [] => ([], [])
  | styles0 =>
      let language_styles := List.filter (is_kind "language_style" min_proficiency) styles0 in
      let grammar_features := List.filter (is_kind "grammar_feature" min_proficiency) styles0 in
      (_weighted_random_selection language_styles max_styles draws_lang,
       _weighted_random_selection grammar_features max_styles draws_gram)
  end.

Definition style_prompt_prefix : string := "在回复时，请尽量采用以下风格特点：".

Definition build_style_prompt (language_styles grammar_features : list string) : string :=
  match language_styles, grammar_features with
  | [], [] => ""
  | _, _ =>
      let prompt_parts :=
        (match language_styles with
         | [] => []
         | _ => ["语言风格：" +:+ String.concat ", " language_styles]
         end) ++
        (match grammar_features with
         | [] => []
         | _ => ["语法特征：" +:+ String.concat ", " grammar_features]
         end) in
      style_prompt_prefix +:+ String.concat "；" prompt_parts
  end.

(** ** StyleInjector *)

Record InjectConfig := mkInjectConfig {
  enable_style_injection : bool;          (* default True *)
  min_proficiency_for_injection : Z;      (* default 20 *)
  max_styles_in_prompt : Z                (* default 3 *)
}.

Definition should_inject_style (cfg : InjectConfig) (st : DataManager) (session_id : string)
  : bool :=
  if negb (enable_style_injection cfg) then false
  else match get_styles_for_session st session_id with
       | [] => false
       | styles0 =>
           Nat.ltb 0 (length (List.filter
                       (fun s => min_proficiency_for_injection cfg <=? proficiency s) styles0))
       end.

Definition newline : string := String (Ascii.ascii_of_nat 10) EmptyString.

(** [strip_is_empty p] stands for [not p.strip()] (Python's notion of
    whitespace). *)
Definition inject_style_to_prompt (strip_is_empty : string -> bool) (cfg : InjectConfig)
    (st : DataManager) (session_id original_system_prompt : string)
    (draws_lang draws_gram : list Q) : string :=
  if negb (should_inject_style cfg st session_id) then original_system_prompt
  else
    let '(ls, gs) := select_styles_for_session st session_id (max_styles_in_prompt cfg) 20
                       draws_lang draws_gram in
    let style_prompt := build_style_prompt ls gs in
    if String.eqb style_prompt "" then original_system_prompt
    else if strip_is_empty original_system_prompt then style_prompt
    else original_system_prompt +:+ newline +:+ newline +:+ style_prompt.

Record StyleSummary := mkSummary {
  has_styles : bool;
  total_styles : nat;
  high_proficiency_styles : nat;
  summary_language_styles : list string;
  summary_grammar_features : list string
}.

Definition get_style_summary (cfg : InjectConfig) (st : DataManager) (session_id : string)
  : StyleSummary :=
  match get_styles_for_session st session_id with
  | [] => mkSummary false 0 0 [] []
  | styles0 =>
      let high := List.filter
                    (fun s => min_proficiency_for_injection cfg <=? proficiency s) styles0 in
      mkSummary (Nat.ltb 0 (length high)) (length styles0) (length high)
        (map content (List.filter (fun s => String.eqb (type s) "language_style") high))
        (map content (List.filter (fun s => String.eqb (type s) "grammar_feature") high))
  end.

(** ** LearningManager.analyze_and_learn *)

(** What [_parse_and_store_results] makes of the model's text: two lists of
    traits; a [JSONDecodeError]/[KeyError] (logged, nothing stored); or
    another exception escaping after the language styles [done] were
    stored. *)
Inductive parse_outcome :=
  | Parsed (language_styles grammar_features : list string)
  | ParseErrorLogged
  | ParseErrorRaised (done : list string).

(** The provider call: it raises, or answers with a role and a text. *)
Inductive llm_outcome :=
  | LlmRaised
  | LlmReply (role : string) (parsed : parse_outcome).

(** The loop [for style in ...: await add_or_update_style(...)]; [clock k] is
    the loop time read by the [k]-th upsert. *)
Fixpoint upsert_all (st : DataManager) (session_id : string) (items : list string)
    (t : string) (clock : nat -> Z) (k : nat) : DataManager :=
  match items with
  | [] => st
  | c :: rest =>
      upsert_all (add_or_update_style st session_id c t (clock k)) session_id rest t clock (S k)
  end.

Definition store_results (st : DataManager) (session_id : string)
    (language_styles grammar_features : list string) (clock : nat -> Z) : DataManager :=
  let st := upsert_all st session_id language_styles "language_style" clock 0 in
  upsert_all st session_id grammar_features "grammar_feature" clock (length language_styles).

Definition analyze_and_learn (min_history : Z) (st : DataManager) (session_id : string)
    (resp : llm_outcome) (clock : nat -> Z) : DataManager :=
  let chat_history0 := get_chat_history st session_id 100 in
  if Z.of_nat (length chat_history0) <? min_history then st
  else
    match resp with
    | LlmRaised => st
    | LlmReply role parsed =>
        if String.eqb role "assistant" then
          match parsed with
          | Parsed ls gs => clear_chat_history (store_results st session_id ls gs clock) session_id
          | ParseErrorLogged => clear_chat_history st session_id
          | ParseErrorRaised done =>
              upsert_all st session_id done "language_style" clock 0
          end
        else st
    end.

(** * Properties *)

(** ** Upsert *)

Definition style_key (s : Style) : string * string := (content s, type s).

Lemma upsert_scan_find (c t : string) (now : Z) (l : list Style) :
  match list_find (style_matches c t) l with
  | Some (i, s) => upsert_scan c t now l = Some (<[i := bump_style now s]> l)
  | None => upsert_scan c t now l = None
  end.
Proof.
  induction l as [|s l IH]; simpl; [done|].
  destruct (decide (style_matches c t s)); [done|].
  destruct (list_find (style_matches c t) l) as [[i s']|]; simpl;
    rewrite IH; done.
Qed.

Lemma upsert_scan_keys (c t : string) (now : Z) (l l' : list Style) :
  upsert_scan c t now l = Some l' -> map style_key l' = map style_key l.
Proof.
  revert l'; induction l as [|s l IH]; intros l' H; simpl in H; [done|].
  destruct (decide (style_matches c t s)).
  - injection H as <-. done.
  - destruct (upsert_scan c t now l) as [r|] eqn:E; [|done].
    injection H as <-. simpl. f_equal. by apply IH.
Qed.

Lemma upsert_scan_None_keys (c t : string) (now : Z) (l : list Style) :
  upsert_scan c t now l = None -> (c, t) ∉ map style_key l.
Proof.
  induction l as [|s l IH]; simpl; intros H.
  - apply not_elem_of_nil.
  - destruct (decide (style_matches c t s)) as [|Hn]; [done|].
    destruct (upsert_scan c t now l); [done|].
    rewrite elem_of_cons. intros [Heq|Hin].
    + apply Hn. unfold style_key in Heq. injection Heq as -> ->. split; done.
    + by apply IH.
Qed.

(** Shape of [add_or_update_style] on the session it touches. *)
Lemma add_or_update_style_lookup (st : DataManager) (session_id c t : string) (now : Z) :
  let l := default [] (styles st !! session_id) in
  styles (add_or_update_style st session_id c t now) =
    <[session_id := match upsert_scan c t now l with
                    | Some l' => l'
                    | None => l ++ [new_style c t now]
                    end]> (match styles st !! session_id with
                           | Some _ => styles st
                           | None => <[session_id := []]> (styles st)
                           end).
Proof.
  unfold add_or_update_style.
  destruct (styles st !! session_id) as [l0|] eqn:E; simpl.
  - rewrite E. simpl. destruct (upsert_scan c t now l0); reflexivity.
  - rewrite lookup_insert_eq. simpl. reflexivity.
Qed.

(** C1: [add_or_update_style] updates the first record with the same
    [(content, type)]: proficiency plus 10 capped at 100 and
    [last_updated = now]; otherwise it appends a new record with proficiency
    10 and [created_at = last_updated = now].  Other sessions keep their
    records; two upserts of the same pair into an empty session leave one
    record of proficiency 20. *)
Theorem add_or_update_style_spec (st : DataManager) (session_id c t : string) (now : Z) :
  let l := default [] (styles st !! session_id) in
  let st' := add_or_update_style st session_id c t now in
  (forall i s, list_find (style_matches c t) l = Some (i, s) ->
     styles st' !! session_id =
       Some (<[i := mkStyle c t (Z.min 100 (proficiency s + 10)) (created_at s) now]> l)) /\
  (list_find (style_matches c t) l = None ->
     styles st' !! session_id = Some (l ++ [mkStyle c t 10 now now])) /\
  (forall other, other <> session_id -> styles st' !! other = styles st !! other) /\
  (forall now1 now2, default [] (styles st !! session_id) = [] ->
     styles (add_or_update_style (add_or_update_style st session_id c t now1)
               session_id c t now2) !! session_id = Some [mkStyle c t 20 now1 now2]).
Proof.
  intros l st'. subst st'.
  pose proof (upsert_scan_find c t now l) as Hf.
  split; [|split; [|split]].
  - intros i s Hfind. rewrite Hfind in Hf.
    rewrite add_or_update_style_lookup. fold l. rewrite Hf, lookup_insert_eq.
    apply list_find_Some in Hfind as (_ & [Hc Ht] & _).
    unfold bump_style. rewrite Hc, Ht. reflexivity.
  - intros Hfind. rewrite Hfind in Hf.
    rewrite add_or_update_style_lookup. fold l. rewrite Hf, lookup_insert_eq. reflexivity.
  - intros other Hne. rewrite add_or_update_style_lookup, lookup_insert_ne by congruence.
    destruct (styles st !! session_id); [done|]. by rewrite lookup_insert_ne by congruence.
  - intros now1 now2 Hl.
    rewrite add_or_update_style_lookup. rewrite (add_or_update_style_lookup st).
    rewrite Hl. simpl. rewrite lookup_insert_eq, lookup_insert_eq. simpl.
    destruct (decide (style_matches c t (new_style c t now1))) as [_|Hn];
      [reflexivity|exfalso; apply Hn; split; reflexivity].
Qed.

Definition keys_unique (l : list Style) : Prop := NoDup (map style_key l).

(** C8: for every session [s] whose record list holds at most one record per
    [(content, type)], the list still does after any [add_or_update_style]
    call, whichever session the call targets and whatever the other sessions
    hold. *)
Theorem add_or_update_style_keys_unique (st : DataManager) (s session_id c t : string)
    (now : Z) :
  keys_unique (default [] (styles st !! s)) ->
  keys_unique (default [] (styles (add_or_update_style st session_id c t now) !! s)).
Proof.
  intros Hl. rewrite add_or_update_style_lookup.
  destruct (decide (s = session_id)) as [->|Hne].
  - rewrite lookup_insert_eq. simpl.
    destruct (upsert_scan c t now _) as [l'|] eqn:E.
    + unfold keys_unique. by rewrite (upsert_scan_keys _ _ _ _ _ E).
    + unfold keys_unique. rewrite map_app. apply NoDup_app. split; [exact Hl|split].
      * intros x Hx. simpl. rewrite list_elem_of_singleton. intros ->.
        apply (upsert_scan_None_keys c t now _ E). exact Hx.
      * apply NoDup_singleton.
  - rewrite lookup_insert_ne by congruence.
    destruct (styles st !! session_id); [exact Hl|].
    rewrite lookup_insert_ne by congruence. exact Hl.
Qed.

(** ** Chat history *)

(** C10: clearing the history of a session absent from the map leaves the
    whole store state unchanged (no entry, no dirty flag, no save task). *)
Theorem clear_chat_history_absent (st : DataManager) (session_id : string) :
  chat_history st !! session_id = None ->
  clear_chat_history st session_id = st.
Proof. intros H. unfold clear_chat_history. by rewrite H. Qed.

(** For a limit of at least one, [get_chat_history] returns the last
    [min(limit, length)] messages. *)
Lemma get_chat_history_positive_limit (st : DataManager) (session_id : string) (limit : Z) :
  1 <= limit ->
  let h := default [] (chat_history st !! session_id) in
  get_chat_history st session_id limit =
    skipn (length h - Nat.min (Z.to_nat limit) (length h)) h.
Proof.
  intros Hl h. unfold get_chat_history, py_slice_from. fold h.
  destruct (Z.ltb_spec (- limit) 0) as [_|]; [|lia].
  f_equal. lia.
Qed.

(** C9 (counterexample to the claim): with [limit = 0] the slice
    [[-limit:]] is [[0:]], so [get_chat_history] returns the whole history
    instead of the last [min(0, length) = 0] messages. *)
Theorem get_chat_history_limit_zero :
  let m := mkMsg "alice" "hi" 0 in
  let st := mkDM ∅ {[ "s" := [m] ]} false false None 0 FileMissing FileMissing [] in
  get_chat_history st "s" 0 = [m] /\
  length (get_chat_history st "s" 0) <> Nat.min 0 1.
Proof. simpl. split; [reflexivity|discriminate]. Qed.

(** ** Persistence *)

Lemma save_styles_styles (st : DataManager) :
  styles (save_styles st) = styles st /\ chat_history (save_styles st) = chat_history st /\
  dirty_chat_history (save_styles st) = dirty_chat_history st /\
  chat_history_file (save_styles st) = chat_history_file st.
Proof.
  unfold save_styles, next_write. destruct (io st) as [|[] ?]; simpl; auto.
Qed.

Lemma save_chat_history_frame (st : DataManager) :
  styles (save_chat_history st) = styles st /\
  chat_history (save_chat_history st) = chat_history st /\
  dirty_styles (save_chat_history st) = dirty_styles st /\
  styles_file (save_chat_history st) = styles_file st.
Proof.
  unfold save_chat_history, next_write. destruct (io st) as [|[] ?]; simpl; auto.
Qed.

Lemma save_styles_ok (st : DataManager) :
  fst (next_write st) = WriteOk ->
  dirty_styles (save_styles st) = false /\ styles_file (save_styles st) = FileJson (styles st).
Proof.
  unfold save_styles, next_write. destruct (io st) as [|[] ?]; simpl; try discriminate; auto.
Qed.

Lemma save_chat_history_ok (st : DataManager) :
  fst (next_write st) = WriteOk ->
  dirty_chat_history (save_chat_history st) = false /\
  chat_history_file (save_chat_history st) = FileJson (chat_history st).
Proof.
  unfold save_chat_history, next_write. destruct (io st) as [|[] ?]; simpl; try discriminate; auto.
Qed.

Lemma save_styles_fail (st : DataManager) :
  fst (next_write st) <> WriteOk ->
  dirty_styles (save_styles st) = dirty_styles st /\
  io (save_styles st) = snd (next_write st).
Proof.
  unfold save_styles, next_write. destruct (io st) as [|[] ?]; simpl; try congruence; auto.
Qed.

Lemma save_chat_history_fail (st : DataManager) :
  fst (next_write st) <> WriteOk ->
  dirty_chat_history (save_chat_history st) = dirty_chat_history st /\
  io (save_chat_history st) = snd (next_write st).
Proof.
  unfold save_chat_history, next_write. destruct (io st) as [|[] ?]; simpl; try congruence; auto.
Qed.

(** Every write drawn from the stream from now on succeeds. *)
Definition writes_succeed (st : DataManager) : Prop := Forall (fun o => o = WriteOk) (io st).

Ltac io_cases st :=
  destruct st as [? ? ds dc tm ? ? ? [|o1 [|o2 r]]]; simpl in *;
  repeat match goal with
         | H : Forall _ (_ :: _) |- _ => inversion H; clear H; subst
         end;
  destruct ds, dc; try destruct tm; simpl in *; auto.

(** A forced flush writes every dirty domain when the writes succeed. *)
Lemma force_save_flushes (st : DataManager) :
  writes_succeed st ->
  (dirty_styles st = true -> styles_file (force_save st) = FileJson (styles st)) /\
  (dirty_chat_history st = true ->
     chat_history_file (force_save st) = FileJson (chat_history st)) /\
  dirty_styles (force_save st) = false /\ dirty_chat_history (force_save st) = false.
Proof. unfold writes_succeed. intros H. io_cases st; repeat split; discriminate. Qed.

(** So does the delayed flush, which also forgets its task. *)
Lemma delayed_save_flushes (st : DataManager) :
  writes_succeed st ->
  (dirty_styles st = true -> styles_file (_delayed_save st) = FileJson (styles st)) /\
  (dirty_chat_history st = true ->
     chat_history_file (_delayed_save st) = FileJson (chat_history st)) /\
  dirty_styles (_delayed_save st) = false /\ dirty_chat_history (_delayed_save st) = false /\
  save_timer (_delayed_save st) = None.
Proof. unfold writes_succeed. intros H. io_cases st; repeat split; discriminate. Qed.

(** C7: [save_styles] and [save_chat_history] never fail (the [IOError] is
    swallowed) and never change the in-memory maps.  A successful write
    clears the domain's dirty flag; a failed write leaves it as it was, so a
    later forced or scheduled flush whose writes succeed persists the same
    data. *)
Theorem save_failure_keeps_dirty (st : DataManager) :
  styles (save_styles st) = styles st /\
  chat_history (save_chat_history st) = chat_history st /\
  (fst (next_write st) = WriteOk ->
     dirty_styles (save_styles st) = false /\
     dirty_chat_history (save_chat_history st) = false) /\
  (fst (next_write st) <> WriteOk ->
     dirty_styles (save_styles st) = dirty_styles st /\
     dirty_chat_history (save_chat_history st) = dirty_chat_history st /\
     (dirty_styles st = true -> writes_succeed (save_styles st) ->
        styles_file (force_save (save_styles st)) = FileJson (styles st) /\
        styles_file (_delayed_save (save_styles st)) = FileJson (styles st)) /\
     (dirty_chat_history st = true -> writes_succeed (save_chat_history st) ->
        chat_history_file (force_save (save_chat_history st)) = FileJson (chat_history st) /\
        chat_history_file (_delayed_save (save_chat_history st)) = FileJson (chat_history st))).
Proof.
  destruct (save_styles_styles st) as (Hs & _).
  destruct (save_chat_history_frame st) as (_ & Hh & _).
  split; [exact Hs|split; [exact Hh|split]].
  - intros Hok. split; [apply save_styles_ok|apply save_chat_history_ok]; exact Hok.
  - intros Hfail.
    destruct (save_styles_fail st Hfail) as [Hds _].
    destruct (save_chat_history_fail st Hfail) as [Hdc _].
    split; [exact Hds|split; [exact Hdc|split]].
    + intros Hd Hw. rewrite <- Hs.
      destruct (force_save_flushes _ Hw) as [Hf _].
      destruct (delayed_save_flushes _ Hw) as [Hd' _].
      split; [apply Hf|apply Hd']; congruence.
    + intros Hd Hw. rewrite <- Hh.
      destruct (force_save_flushes _ Hw) as [_ [Hf _]].
      destruct (delayed_save_flushes _ Hw) as [_ [Hd' _]].
      split; [apply Hf|apply Hd']; congruence.
Qed.

(** ** The stable sort *)

Section StableSortFacts.
Context {A : Type} (key : A -> Z).

Lemma insert_asc_perm (x : A) (l : list A) : insert_asc key x l ≡ₚ x :: l.
Proof.
  induction l as [|y l IH]; simpl; [done|].
  destruct (key y <=? key x); [|done].
  rewrite IH. apply Permutation_swap.
Qed.

Lemma sort_asc_aux_perm (l acc : list A) :
  fold_left (fun acc x => insert_asc key x acc) l acc ≡ₚ acc ++ l.
Proof.
  revert acc; induction l as [|x l IH]; intros acc; simpl.
  - by rewrite app_nil_r.
  - rewrite IH, insert_asc_perm. by rewrite <- Permutation_middle.
Qed.

Lemma sort_asc_perm (l : list A) : sort_asc key l ≡ₚ l.
Proof. unfold sort_asc. apply sort_asc_aux_perm. Qed.

Definition key_le (x y : A) : Prop := key x <= key y.

Lemma insert_asc_sorted (x : A) (l : list A) :
  StronglySorted key_le l -> StronglySorted key_le (insert_asc key x l).
Proof.
  induction l as [|y l IH]; intros Hs; simpl.
  - repeat constructor.
  - inversion Hs as [|? ? Hs' Hy]; subst.
    destruct (Z.leb_spec (key y) (key x)).
    + constructor; [by apply IH|].
      eapply Permutation_Forall; [symmetry; apply insert_asc_perm|].
      constructor; [unfold key_le; lia|exact Hy].
    + constructor; [exact Hs|]. constructor; [unfold key_le; lia|].
      eapply Forall_impl; [exact Hy|]. unfold key_le. intros z Hz. lia.
Qed.

Lemma sort_asc_sorted (l : list A) : StronglySorted key_le (sort_asc key l).
Proof.
  unfold sort_asc. assert (H : StronglySorted key_le (@nil A)) by constructor.
  revert H. generalize (@nil A). induction l as [|x l IH]; intros acc Hacc; simpl.
  - exact Hacc.
  - apply IH. by apply insert_asc_sorted.
Qed.

Lemma strongly_sorted_app (l1 l2 : list A) :
  StronglySorted key_le (l1 ++ l2) ->
  forall x y, x ∈ l1 -> y ∈ l2 -> key x <= key y.
Proof.
  induction l1 as [|z l1 IH]; simpl; intros Hs x y Hx Hy.
  - by apply not_elem_of_nil in Hx.
  - inversion Hs as [|? ? Hs' Hz]; subst.
    apply elem_of_cons in Hx as [->|Hx].
    + rewrite Forall_forall in Hz. apply (Hz y).
      apply list_elem_of_In, in_or_app. right. by apply list_elem_of_In.
    + by apply (IH Hs').

Qed.

(** Stability: records of one key keep their relative order. *)
Definition key_is (k : Z) (x : A) : Prop := key x = k.
#[global] Instance key_is_dec k x : Decision (key_is k x).
Proof. unfold key_is. apply _. Defined.

Lemma filter_all_false (P : A -> Prop) `{!forall x, Decision (P x)} (l : list A) :
  Forall (fun x => ~ P x) l -> filter P l = [].
Proof.
  induction 1 as [|x l Hx _ IH]; [done|]. by rewrite filter_cons_False.
Qed.

Lemma insert_asc_filter (k : Z) (x : A) (l : list A) :
  StronglySorted key_le l ->
  filter (key_is k) (insert_asc key x l) = filter (key_is k) l ++ filter (key_is k) [x].
Proof.
  induction l as [|y l IH]; intros Hs; simpl; [done|].
  inversion Hs as [|? ? Hs' Hy]; subst.
  destruct (Z.leb_spec (key y) (key x)).
  - rewrite !filter_cons, IH by exact Hs'. by destruct (decide (key_is k y)).
  - (* every element of [y :: l] has a key above [key x] *)
    assert (Hnone : filter (key_is k) (y :: l) = [] \/ key x <> k).
    { destruct (decide (key x = k)) as [Hk|]; [left|by right].
      apply filter_all_false. constructor.
      - unfold key_is. lia.
      - eapply Forall_impl; [exact Hy|]. unfold key_le, key_is. intros z Hz. lia. }
    rewrite (filter_cons _ x (y :: l)). simpl filter at 3.
    destruct (decide (key_is k x)) as [Hk|Hk].
    + destruct Hnone as [Hn|Hn]; [|by unfold key_is in Hk].
      rewrite Hn. simpl. rewrite filter_cons_True by exact Hk. by rewrite filter_nil.
    + rewrite (filter_cons_False _ x []), filter_nil by exact Hk. by rewrite app_nil_r.
Qed.

Lemma sort_asc_filter (k : Z) (l : list A) :
  filter (key_is k) (sort_asc key l) = filter (key_is k) l.
Proof.
  unfold sort_asc.
  assert (H : forall acc, StronglySorted key_le acc ->
    filter (key_is k) (fold_left (fun acc x => insert_asc key x acc) l acc) =
    filter (key_is k) acc ++ filter (key_is k) l).
  { induction l as [|x l IH]; intros acc Hacc; simpl.
    - by rewrite app_nil_r.
    - rewrite IH by (by apply insert_asc_sorted).
      rewrite insert_asc_filter by exact Hacc.
      rewrite <- app_assoc. f_equal. by rewrite <- filter_app. }
  rewrite H by constructor. done.
Qed.
End StableSortFacts.

(** ** Proficiency bounds *)

Definition prof_in_range (s : Style) : Prop := 0 <= proficiency s <= 100.

Definition store_in_range (m : StyleMap) : Prop :=
  map_Forall (fun _ l => Forall prof_in_range l) m.

Lemma Forall_skipn {A} (P : A -> Prop) (n : nat) (l : list A) :
  Forall P l -> Forall P (skipn n l).
Proof.
  revert l; induction n as [|n IH]; intros l Hl; [exact Hl|].
  destruct l as [|x l]; [constructor|]. inversion Hl; subst. simpl. by apply IH.
Qed.

Lemma Forall_py_slice_from {A} (P : A -> Prop) (k : Z) (l : list A) :
  Forall P l -> Forall P (py_slice_from l k).
Proof. unfold py_slice_from. destruct (k <? 0); apply Forall_skipn. Qed.

Lemma Forall_cap_session (P : Style -> Prop) (max_styles : Z) (l : list Style) :
  Forall P l -> Forall P (cap_session max_styles l).
Proof.
  intros Hl. unfold cap_session. destruct (max_styles <? _); [|exact Hl].
  apply Forall_py_slice_from. eapply Permutation_Forall; [symmetry; apply sort_asc_perm|].
  exact Hl.
Qed.

Lemma Forall_drop_exhausted (P : Style -> Prop) (l : list Style) :
  Forall P l -> Forall P (drop_exhausted l).
Proof.
  rewrite !Forall_forall. intros Hl x Hx. unfold drop_exhausted in Hx.
  apply list_elem_of_filter in Hx as [_ Hx].
  exact (Hl x Hx).
Qed.

Lemma cleanup_styles_Forall (P : Style -> Prop) (max_styles : Z) (m : StyleMap) :
  map_Forall (fun _ l => Forall P l) m ->
  map_Forall (fun _ l => Forall P l) (cleanup_styles max_styles m).
Proof.
  intros Hm. unfold cleanup_styles. apply map_Forall_fmap, map_Forall_fmap.
  intros i l Hi. unfold compose.
  apply Forall_cap_session, Forall_drop_exhausted. exact (Hm i l Hi).
Qed.

Lemma decay_style_range (now rate : Z) (s : Style) :
  prof_in_range s ->
  prof_in_range (decay_style now rate s) /\ proficiency (decay_style now rate s) <= proficiency s.
Proof.
  unfold prof_in_range, decay_style. intros Hs.
  destruct (0 <? _) eqn:E; simpl; [apply Z.ltb_lt in E; lia|lia].
Qed.

Lemma decay_styles_range (now rate : Z) (m : StyleMap) :
  store_in_range m -> store_in_range (decay_styles now rate m).
Proof.
  intros Hm. unfold store_in_range, decay_styles. apply map_Forall_fmap.
  intros i l Hi. unfold compose. apply Forall_map. eapply Forall_impl; [exact (Hm i l Hi)|].
  intros s Hs. apply (decay_style_range now rate s Hs).
Qed.

Lemma upsert_scan_range (c t : string) (now : Z) (l l' : list Style) :
  Forall prof_in_range l -> upsert_scan c t now l = Some l' -> Forall prof_in_range l'.
Proof.
  revert l'; induction l as [|s l IH]; intros l' Hl H; simpl in H; [done|].
  inversion Hl as [|? ? Hs Hl']; subst.
  destruct (decide (style_matches c t s)).
  - injection H as <-. constructor; [|exact Hl'].
    unfold prof_in_range in *. simpl. lia.
  - destruct (upsert_scan c t now l) as [r|] eqn:E; [|done].
    injection H as <-. constructor; [exact Hs|]. by apply IH.
Qed.

(** C2: if every record's proficiency lies in [[0, 100]], it still does
    after [add_or_update_style] and after the maintenance passes (the
    scheduler's decay, its decay-and-cleanup iteration, and
    [DataManager.perform_maintenance]); decay never raises a proficiency. *)
Theorem proficiency_stays_in_range (st : DataManager) (session_id c t : string)
    (now : Z) (cfg : Config) :
  store_in_range (styles st) ->
  store_in_range (styles (add_or_update_style st session_id c t now)) /\
  store_in_range (decay_styles now (proficiency_decay_rate cfg) (styles st)) /\
  store_in_range (styles (_perform_decay cfg now st)) /\
  store_in_range (styles (run_maintenance_step cfg now st)) /\
  store_in_range (styles (perform_maintenance cfg now st)) /\
  map_Forall (fun i l => forall l0, styles st !! i = Some l0 ->
                 Forall2 (fun s0 s => proficiency s <= proficiency s0) l0 l)
    (decay_styles now (proficiency_decay_rate cfg) (styles st)).
Proof.
  intros Hm.
  assert (Hd : store_in_range (decay_styles now (proficiency_decay_rate cfg) (styles st)))
    by (by apply decay_styles_range).
  assert (Hpd : styles (_perform_decay cfg now st)
                = decay_styles now (proficiency_decay_rate cfg) (styles st)).
  { unfold _perform_decay. by rewrite (proj1 (save_styles_styles _)). }
  split; [|split; [exact Hd|split; [by rewrite Hpd|split; [|split]]]].
  - rewrite add_or_update_style_lookup.
    assert (H0 : store_in_range (match styles st !! session_id with
                                 | Some _ => styles st
                                 | None => <[session_id := []]> (styles st)
                                 end)).
    { destruct (styles st !! session_id); [done|]. by apply map_Forall_insert_2. }
    assert (Hl : Forall prof_in_range (default [] (styles st !! session_id))).
    { destruct (styles st !! session_id) eqn:E; simpl; [exact (Hm _ _ E)|constructor]. }
    apply map_Forall_insert_2; [|exact H0].
    destruct (upsert_scan _ _ _ _) as [l'|] eqn:E.
    + exact (upsert_scan_range _ _ _ _ _ Hl E).
    + apply Forall_app. split; [exact Hl|]. repeat constructor; simpl; lia.
  - unfold run_maintenance_step, _perform_cleanup.
    rewrite (proj1 (save_styles_styles _)). simpl. rewrite Hpd.
    by apply cleanup_styles_Forall.
  - unfold perform_maintenance. simpl. by apply cleanup_styles_Forall.
  - intros i l Hi l0 H0. unfold decay_styles in Hi.
    rewrite lookup_fmap, H0 in Hi. simpl in Hi. injection Hi as <-.
    apply Forall2_fmap_r. apply Forall_Forall2_diag.
    eapply Forall_impl; [exact (Hm i l0 H0)|].
    intros s Hs. apply (decay_style_range now _ s Hs).
Qed.

(** ** Decay *)

(** C3: for a record updated in the past, the decay step computes
    [decay_amount = floor((now - last_updated) / 86400) * rate]; when it is
    positive the proficiency becomes [max(0, proficiency - decay_amount)] and
    [last_updated] becomes [now], otherwise the record is unchanged.  With
    rate 1, a record last updated two days ago with proficiency at least 2
    loses exactly 2.  The scheduler's decay pass applies this step to every
    record of every session. *)
Theorem decay_step_spec (now rate : Z) (s : Style) :
  last_updated s <= now ->
  let decay_amount := (now - last_updated s) / 86400 * rate in
  (0 < decay_amount ->
     decay_style now rate s =
       mkStyle (content s) (type s) (Z.max 0 (proficiency s - decay_amount)) (created_at s) now) /\
  (decay_amount <= 0 -> decay_style now rate s = s) /\
  (rate = 1 -> 2 * 86400 <= now - last_updated s < 3 * 86400 -> 2 <= proficiency s ->
     proficiency (decay_style now rate s) = proficiency s - 2 /\
     last_updated (decay_style now rate s) = now) /\
  (forall (cfg : Config) (st : DataManager), proficiency_decay_rate cfg = rate ->
     styles (_perform_decay cfg now st) = map (decay_style now rate) <$> styles st).
Proof.
  intros Hpast decay_amount.
  assert (Hq : Z.quot (now - last_updated s) 86400 = (now - last_updated s) / 86400)
    by (apply Z.quot_div_nonneg; lia).
  unfold decay_style. rewrite Hq. fold decay_amount.
  split; [|split; [|split]].
  - intros Hpos. apply Z.ltb_lt in Hpos. by rewrite Hpos.
  - intros Hle. destruct (Z.ltb_spec 0 decay_amount); [lia|reflexivity].
  - intros -> He Hp.
    assert (H2 : (now - last_updated s) / 86400 = 2)
      by (symmetry; apply Z.div_unique_pos with (now - last_updated s - 2 * 86400); lia).
    subst decay_amount. rewrite H2. simpl. split; [lia|reflexivity].
  - intros cfg st Hr. unfold _perform_decay. rewrite (proj1 (save_styles_styles _)).
    simpl. by rewrite Hr.
Qed.

(** ** Persistence effect of maintenance *)

(** [DataManager.perform_maintenance] writes nothing: it only marks the style
    domain dirty and (re)schedules the delayed save. *)
Lemma perform_maintenance_frame (cfg : Config) (now : Z) (st : DataManager) :
  let st' := perform_maintenance cfg now st in
  styles_file st' = styles_file st /\ chat_history_file st' = chat_history_file st /\
  io st' = io st /\ chat_history st' = chat_history st /\
  dirty_styles st' = true /\ dirty_chat_history st' = dirty_chat_history st /\
  save_timer st' = Some (S (task_counter st)).
Proof. simpl. repeat split. Qed.

(** The scheduler's iteration calls [save_styles] directly, twice: when the
    writes succeed the file holds the maintained map when it returns. *)
Lemma run_maintenance_step_writes (cfg : Config) (now : Z) (st : DataManager) :
  writes_succeed st ->
  styles_file (run_maintenance_step cfg now st) =
    FileJson (styles (run_maintenance_step cfg now st)) /\
  dirty_styles (run_maintenance_step cfg now st) = false.
Proof.
  unfold writes_succeed, run_maintenance_step, _perform_cleanup, _perform_decay.
  intros H. destruct st as [? ? ? ? ? ? ? ? [|o1 [|o2 r]]]; simpl in *;
    repeat match goal with
           | H : Forall _ (_ :: _) |- _ => inversion H; clear H; subst
           end; simpl; auto.
Qed.

(** C6 (the periodic pass does not match the claim): one iteration of
    [Scheduler._run_maintenance] writes the styles file before it returns,
    leaves the dirty flag cleared and schedules no delayed save, whereas
    [DataManager.perform_maintenance], on the same store, leaves the file
    untouched, sets the dirty flag and schedules the debounced save. *)
Theorem run_maintenance_writes_immediately :
  let s := mkStyle "polite" "language_style" 30 0 0 in
  let st := mkDM {[ "room" := [s] ]} ∅ false false None 0 FileMissing FileMissing [] in
  let st' := run_maintenance_step default_config (2 * 86400) st in
  styles_file st' = FileJson {[ "room" := [mkStyle "polite" "language_style" 28 0 (2 * 86400)] ]} /\
  styles_file st' <> styles_file st /\
  dirty_styles st' = false /\ save_timer st' = None /\
  styles_file (perform_maintenance default_config (2 * 86400) st) = FileMissing /\
  dirty_styles (perform_maintenance default_config (2 * 86400) st) = true /\
  save_timer (perform_maintenance default_config (2 * 86400) st) = Some 1%nat.
Proof. vm_compute. repeat split; discriminate. Qed.

(** ** Eviction *)

Lemma drop_exhausted_positive (l : list Style) :
  Forall (fun s => 0 < proficiency s) (drop_exhausted l).
Proof.
  apply Forall_forall. intros x Hx. unfold drop_exhausted in Hx.
  apply list_elem_of_filter in Hx as [Hx _]. exact Hx.
Qed.

(** With a cap of at least one, the cleanup of a session keeps no exhausted
    record and at most [max_styles] records; on overflow it keeps exactly
    [max_styles] of them, none of lower proficiency than an evicted one, and
    among records of equal proficiency the last ones in insertion order. *)
Lemma cleanup_session_spec (max_styles : Z) (l : list Style) :
  1 <= max_styles ->
  let kept := drop_exhausted l in
  let r := cap_session max_styles kept in
  Forall (fun s => proficiency s <> 0) r /\
  Z.of_nat (length r) <= max_styles /\
  (Z.of_nat (length kept) <= max_styles -> r = kept) /\
  (max_styles < Z.of_nat (length kept) ->
     Z.of_nat (length r) = max_styles /\
     exists evicted, r ++ evicted ≡ₚ kept /\
       (forall x y, x ∈ r -> y ∈ evicted -> proficiency y <= proficiency x) /\
       (forall k, filter (key_is proficiency k) r `suffix_of`
                  filter (key_is proficiency k) kept)).
Proof.
  intros Hmax kept r.
  assert (Hpos : Forall (fun s => proficiency s <> 0) r).
  { apply Forall_cap_session. eapply Forall_impl; [apply drop_exhausted_positive|].
    intros s Hs. simpl in Hs. lia. }
  set (sorted := sort_asc proficiency kept).
  set (n := (length kept - Z.to_nat max_styles)%nat).
  assert (Hlen : length sorted = length kept) by apply Permutation_length, sort_asc_perm.
  assert (Hover : max_styles < Z.of_nat (length kept) -> r = skipn n sorted).
  { intros Ho. subst r. unfold cap_session. destruct (Z.ltb_spec max_styles (Z.of_nat (length kept)));
      [|lia].
    unfold py_slice_from. fold sorted. destruct (Z.ltb_spec (- max_styles) 0); [|lia].
    f_equal. rewrite Hlen. subst n. lia. }
  assert (Hunder : Z.of_nat (length kept) <= max_styles -> r = kept).
  { intros Hu. subst r. unfold cap_session.
    destruct (Z.ltb_spec max_styles (Z.of_nat (length kept))); [lia|reflexivity]. }
  assert (Hsplit : sorted = firstn n sorted ++ skipn n sorted) by (symmetry; apply firstn_skipn).
  assert (Hover_spec : max_styles < Z.of_nat (length kept) ->
     Z.of_nat (length r) = max_styles /\
     exists evicted, r ++ evicted ≡ₚ kept /\
       (forall x y, x ∈ r -> y ∈ evicted -> proficiency y <= proficiency x) /\
       (forall k, filter (key_is proficiency k) r `suffix_of`
                  filter (key_is proficiency k) kept)).
  { intros Ho. rewrite (Hover Ho). split.
    { rewrite length_skipn, Hlen. subst n. lia. }
    exists (firstn n sorted). split; [|split].
    - rewrite Permutation_app_comm, <- Hsplit. apply sort_asc_perm.
    - intros x y Hx Hy.
      pose proof (sort_asc_sorted proficiency kept) as Hs. fold sorted in Hs.
      rewrite Hsplit in Hs. exact (strongly_sorted_app proficiency _ _ Hs y x Hy Hx).
    - intros k. rewrite <- (sort_asc_filter proficiency k kept). fold sorted.
      rewrite Hsplit at 2. rewrite filter_app. eexists. reflexivity. }
  split; [exact Hpos|split; [|split; [exact Hunder|exact Hover_spec]]].
  destruct (Z.ltb_spec max_styles (Z.of_nat (length kept))) as [Ho|Hu].
  - destruct (Hover_spec Ho) as [-> _]. lia.
  - rewrite (Hunder Hu). exact Hu.
Qed.

(** C4 (counterexample to the claim): with [max_styles_per_session = 0] the
    slice [sorted_styles[-0:]] is the whole sorted list, so a session keeps a
    record although the cap is 0, both in the scheduler's cleanup and in
    [perform_maintenance]. *)
Theorem cleanup_cap_zero_keeps_records :
  let s := mkStyle "polite" "language_style" 5 0 0 in
  let st := mkDM {[ "room" := [s] ]} ∅ false false None 0 FileMissing FileMissing [] in
  let cfg := mkConfig 1 0 in
  styles (run_maintenance_step cfg 0 st) !! "room" = Some [s] /\
  styles (perform_maintenance cfg 0 st) !! "room" = Some [s] /\
  (0 < Z.of_nat (length [s]))%Z.
Proof. vm_compute. repeat split. Qed.

(** ** Weighted selection *)

Section DescSortFacts.
Context {A : Type} (key : A -> Z).

Lemma insert_desc_perm (x : A) (l : list A) : insert_desc key x l ≡ₚ x :: l.
Proof.
  induction l as [|y l IH]; simpl; [done|].
  destruct (key x <=? key y); [|done].
  rewrite IH. apply Permutation_swap.
Qed.

Lemma sort_desc_perm (l : list A) : sort_desc key l ≡ₚ l.
Proof.
  unfold sort_desc. change l with ([] ++ l) at 2. generalize (@nil A).
  induction l as [|x l IH]; intros acc; simpl.
  - by rewrite app_nil_r.
  - rewrite IH, insert_desc_perm. by rewrite <- Permutation_middle.
Qed.
End DescSortFacts.

Lemma sum_proficiency_perm (l1 l2 : list Style) :
  l1 ≡ₚ l2 -> sum_proficiency l1 = sum_proficiency l2.
Proof. induction 1; simpl; lia. Qed.

Lemma pick_style_elem (r : Q) (cumulative : Z) (l : list Style) (s : Style) :
  pick_style r cumulative l = Some s -> s ∈ l.
Proof.
  revert cumulative; induction l as [|y l IH]; intros cumulative H; simpl in H; [done|].
  destruct (Qle_bool _ _).
  - injection H as <-. apply elem_of_cons. by left.
  - apply elem_of_cons. right. exact (IH _ H).
Qed.

Lemma list_remove_perm (s : Style) (l : list Style) :
  s ∈ l -> l ≡ₚ s :: list_remove s l.
Proof.
  induction l as [|y l IH]; intros H; simpl; [by apply not_elem_of_nil in H|].
  destruct (decide (s = y)) as [->|Hne]; [done|].
  apply elem_of_cons in H as [H|H]; [done|].
  etrans; [apply perm_skip, (IH H)|]. apply Permutation_swap.
Qed.

(** Each iteration appends at most one content, taken from a record it
    removes from the eligible list. *)
Lemma selection_loop_picks (fuel : nat) (remaining : list Style) (draws : list Q)
    (selected : list string) :
  exists picked,
    selection_loop fuel remaining draws selected = selected ++ map content picked /\
    picked ⊆+ remaining /\ (length picked <= fuel)%nat.
Proof.
  revert remaining draws selected.
  induction fuel as [|fuel IH]; intros remaining draws selected; simpl.
  { exists []. simpl. rewrite app_nil_r. split; [done|split; [apply submseteq_nil_l|lia]]. }
  destruct remaining as [|s0 rest] eqn:Er.
  { exists []. simpl. rewrite app_nil_r. split; [done|split; [apply submseteq_nil_l|lia]]. }
  rewrite <- Er.
  destruct (sum_proficiency remaining <=? 0).
  { exists []. simpl. rewrite app_nil_r. split; [done|split; [apply submseteq_nil_l|lia]]. }
  destruct (next_random draws) as [u draws'].
  destruct (pick_style _ 0 remaining) as [s|] eqn:Ep.
  - destruct (IH (list_remove s remaining) draws' (selected ++ [content s]))
      as (picked & Hres & Hsub & Hlen).
    exists (s :: picked). split; [|split].
    + rewrite Hres. simpl. by rewrite <- app_assoc.
    + rewrite (list_remove_perm s remaining) by exact (pick_style_elem _ _ _ _ Ep).
      by apply submseteq_skip.
    + simpl. lia.
  - destruct (IH remaining draws' selected) as (picked & Hres & Hsub & Hlen).
    exists picked. split; [exact Hres|split; [exact Hsub|lia]].
Qed.

(** Once the eligible candidates weigh nothing, the loop stops and returns
    what it has selected so far. *)
Lemma selection_loop_stops (fuel : nat) (remaining : list Style) (draws : list Q)
    (selected : list string) :
  sum_proficiency remaining <= 0 -> selection_loop fuel remaining draws selected = selected.
Proof.
  intros H. destruct fuel; simpl; [done|].
  destruct remaining; [done|]. by destruct (Z.leb_spec (sum_proficiency (s :: remaining)) 0);
    [|lia].
Qed.

(** C5 (counterexample to the claim): candidates of proficiency 30 and 0,
    [max_count = 2], first draw [0.5]: the first iteration selects "a"; the
    eligible total then is 0 and the loop stops, so "b" is not appended. *)
Lemma weighted_selection_no_fallback_after_draws :
  let a := mkStyle "a" "language_style" 30 0 0 in
  let b := mkStyle "b" "language_style" 0 0 0 in
  sum_proficiency [b] <= 0 /\
  _weighted_random_selection [a; b] 2 [(1 # 2)%Q] = ["a"] /\
  _weighted_random_selection [a; b] 2 [(1 # 2)%Q] <> ["a"; "b"].
Proof. vm_compute. split; [discriminate|split; [reflexivity|discriminate]]. Qed.

(** The two paths of [_weighted_random_selection] on a non-empty list. *)
Lemma weighted_selection_cases (styles0 : list Style) (max_count : Z) (draws : list Q) :
  styles0 <> [] ->
  let sorted := sort_desc proficiency styles0 in
  (sum_proficiency sorted <= 0 /\
   _weighted_random_selection styles0 max_count draws = map content (py_slice_to sorted max_count)) \/
  (0 < sum_proficiency sorted /\
   _weighted_random_selection styles0 max_count draws =
     selection_loop (Z.to_nat (Z.min max_count (Z.of_nat (length sorted)))) sorted draws []).
Proof.
  destruct styles0 as [|s0 rest]; [done|]. intros _ sorted.
  cbv beta iota zeta delta [_weighted_random_selection]. fold sorted.
  destruct (Z.leb_spec (sum_proficiency sorted) 0); [left|right]; done.
Qed.

(** C5 (amended): for [max_count >= 0], any candidate list and any draws,
    the result has at most [max_count] contents, those of distinct input
    records; if the candidates' total proficiency is at most 0 the result is
    the first [max_count] contents in descending stable order; if the
    eligible total falls to 0 or below after some draws, the loop stops and
    returns only what it selected so far. *)
Theorem weighted_selection_spec (styles0 : list Style) (max_count : Z) (draws : list Q) :
  0 <= max_count ->
  let res := _weighted_random_selection styles0 max_count draws in
  (length res <= Z.to_nat max_count)%nat /\
  (exists chosen, chosen ⊆+ styles0 /\ res = map content chosen) /\
  (sum_proficiency styles0 <= 0 ->
     res = map content (firstn (Z.to_nat max_count) (sort_desc proficiency styles0))) /\
  (forall fuel remaining ds selected, sum_proficiency remaining <= 0 ->
     selection_loop fuel remaining ds selected = selected).
Proof.
  intros Hmax res. subst res.
  destruct (decide (styles0 = [])) as [->|Hne].
  { simpl. split; [lia|split; [|split; [|exact selection_loop_stops]]].
    2: { intros _. unfold sort_desc. simpl. by rewrite take_nil. }
    exists []. split; [apply submseteq_nil_l|done]. }
  pose proof (sort_desc_perm proficiency styles0) as Hp.
  pose proof (sum_proficiency_perm _ _ Hp) as Hsum.
  assert (Hslice : py_slice_to (sort_desc proficiency styles0) max_count
                   = firstn (Z.to_nat max_count) (sort_desc proficiency styles0)).
  { unfold py_slice_to. by destruct (Z.ltb_spec max_count 0); [lia|]. }
  destruct (weighted_selection_cases styles0 max_count draws Hne) as [[Hz ->]|[Hz ->]];
    rewrite ?Hslice.
  - split; [|split; [|split; [done|exact selection_loop_stops]]].
    + rewrite length_map, length_firstn. lia.
    + exists (firstn (Z.to_nat max_count) (sort_desc proficiency styles0)). split; [|done].
      rewrite <- Hp at 2.
      rewrite <- (firstn_skipn (Z.to_nat max_count) (sort_desc proficiency styles0)) at 2.
      apply submseteq_inserts_r. done.
  - destruct (selection_loop_picks
                (Z.to_nat (Z.min max_count (Z.of_nat (length (sort_desc proficiency styles0)))))
                (sort_desc proficiency styles0) draws []) as (picked & Hres & Hsub & Hl).
    rewrite Hres. simpl.
    split; [|split; [|split; [|exact selection_loop_stops]]].
    + rewrite length_map. lia.
    + exists picked. split; [by rewrite <- Hp|done].
    + intros Hle. lia.
Qed.

(** ** Instances of the theorems on concrete stores *)

Definition sample_store : DataManager :=
  mkDM {[ "room" := [mkStyle "polite" "language_style" 40 0 0;
                     mkStyle "inverted word order" "grammar_feature" 100 0 0] ]}
       {[ "room" := [mkMsg "alice" "hi" 0] ]}
       false false None 0 FileMissing FileMissing [].

Definition mixed_store : DataManager :=
  mkDM {[ "room" := [mkStyle "polite" "language_style" 40 0 0];
          "dup" := [mkStyle "terse" "language_style" 30 0 0;
                    mkStyle "terse" "language_style" 50 0 0] ]}
       ∅ false false None 0 FileMissing FileMissing [].

Lemma add_or_update_style_keys_unique_witness :
  keys_unique (default [] (styles mixed_store !! "room")) /\
  keys_unique (default [] (styles (add_or_update_style mixed_store "room" "polite"
                                     "language_style" 5) !! "room")).
Proof.
  assert (H : keys_unique (default [] (styles mixed_store !! "room")))
    by (unfold keys_unique; refine (bool_decide_unpack _ _); vm_compute; reflexivity).
  split; [exact H|]. apply add_or_update_style_keys_unique. exact H.
Defined.

Lemma proficiency_stays_in_range_witness :
  store_in_range (styles sample_store) /\
  store_in_range (styles (perform_maintenance default_config (3 * 86400) sample_store)).
Proof.
  assert (H : store_in_range (styles sample_store))
    by (unfold store_in_range, prof_in_range; refine (bool_decide_unpack _ _); vm_compute;
        reflexivity).
  split; [exact H|].
  exact (proj1 (proj2 (proj2 (proj2 (proj2
    (proficiency_stays_in_range sample_store "room" "polite" "language_style"
       (3 * 86400) default_config H)))))).
Defined.

Lemma decay_step_spec_witness :
  last_updated (mkStyle "polite" "language_style" 40 0 0) <= 2 * 86400 /\
  proficiency (decay_style (2 * 86400) 1 (mkStyle "polite" "language_style" 40 0 0)) = 38.
Proof.
  assert (H : last_updated (mkStyle "polite" "language_style" 40 0 0) <= 2 * 86400)
    by (simpl; lia).
  split; [exact H|].
  destruct (decay_step_spec (2 * 86400) 1 _ H) as (_ & _ & Hex & _).
  destruct (Hex eq_refl) as [-> _]; simpl; lia.
Defined.

Lemma weighted_selection_spec_witness :
  0 <= 2 /\
  (length (_weighted_random_selection
             [mkStyle "a" "language_style" 30 0 0; mkStyle "b" "language_style" 60 0 0]
             2 [(1 # 3)%Q; (1 # 2)%Q]) <= 2)%nat.
Proof.
  assert (H : 0 <= 2) by lia. split; [exact H|].
  exact (proj1 (weighted_selection_spec _ 2 _ H)).
Defined.

Lemma clear_chat_history_absent_witness :
  chat_history sample_store !! "lobby" = None /\
  clear_chat_history sample_store "lobby" = sample_store.
Proof.
  assert (H : chat_history sample_store !! "lobby" = None) by reflexivity.
  split; [exact H|]. exact (clear_chat_history_absent sample_store "lobby" H).
Defined.

(** * Further properties of the store *)

(** ** Chat history *)

(** [add_message_to_history] appends the message at the end of the
    session's history (creating it if absent), leaves the other sessions
    alone, marks the history dirty and schedules a save; the most recent
    message read back is the one just added. *)
Theorem add_message_then_recent (st : DataManager) (session_id : string) (m : Msg) :
  let st' := add_message_to_history st session_id m in
  chat_history st' !! session_id =
    Some (default [] (chat_history st !! session_id) ++ [m]) /\
  (forall other, other <> session_id -> chat_history st' !! other = chat_history st !! other) /\
  get_chat_history st' session_id 1 = [m] /\
  dirty_chat_history st' = true /\ save_timer st' = Some (task_counter st') /\
  styles st' = styles st.
Proof.
  unfold add_message_to_history, _schedule_save, get_chat_history, py_slice_from; simpl.
  rewrite lookup_insert_eq. simpl.
  split; [done|split; [|split; [|auto]]].
  - intros other Hne. by rewrite lookup_insert_ne by congruence.
  - rewrite length_app. simpl.
    replace (Z.to_nat (Z.of_nat (length (default [] (chat_history st !! session_id)) + 1) + -1))
      with (length (default [] (chat_history st !! session_id))) by lia.
    by rewrite drop_app_length.
Qed.

Lemma clear_chat_history_reads_empty (st : DataManager) (session_id : string)
    (h : list Msg) (limit : Z) :
  chat_history st !! session_id = Some h ->
  let st' := clear_chat_history st session_id in
  get_chat_history st' session_id limit = [] /\
  dirty_chat_history st' = true /\ save_timer st' = Some (S (task_counter st)) /\
  styles st' = styles st.
Proof.
  intros H. unfold clear_chat_history. rewrite H. simpl.
  unfold get_chat_history, _schedule_save. simpl. rewrite lookup_insert_eq. simpl.
  unfold py_slice_from. split; [|auto]. by destruct (_ <? 0); rewrite skipn_nil.
Qed.

(** Clearing the history of a present session empties it: every later read
    returns nothing, whatever the limit; the flag is set and a save
    scheduled. *)
Theorem clear_chat_history_present (st : DataManager) (session_id : string)
    (h : list Msg) (limit : Z) :
  chat_history st !! session_id = Some h ->
  let st' := clear_chat_history st session_id in
  get_chat_history st' session_id limit = [] /\
  dirty_chat_history st' = true /\ save_timer st' = Some (S (task_counter st)) /\
  styles st' = styles st.
Proof. exact (clear_chat_history_reads_empty st session_id h limit). Qed.

(** ** Debouncing: mutations never write *)

(** At most one save task is pending and it is the latest one created. *)
Definition single_pending (st : DataManager) : Prop :=
  save_timer st = None \/ save_timer st = Some (task_counter st).

Lemma apply_mutation_frame (st : DataManager) (mu : mutation) :
  let st' := apply_mutation st mu in
  styles_file st' = styles_file st /\ chat_history_file st' = chat_history_file st /\
  io st' = io st /\ (task_counter st <= task_counter st')%nat /\
  (st' = st \/ save_timer st' = Some (task_counter st')).
Proof.
  destruct mu as [sid c t now|sid m|sid|cfg now]; simpl.
  - unfold add_or_update_style.
    destruct (styles st !! sid); destruct (upsert_scan _ _ _ _);
      simpl; (split; [done|split; [done|split; [done|split; [lia|by right]]]]).
  - split; [done|split; [done|split; [done|split; [lia|by right]]]].
  - unfold clear_chat_history. destruct (chat_history st !! sid); simpl;
      (split; [done|split; [done|split; [done|split; [lia|]]]]); first [by right|by left].
  - split; [done|split; [done|split; [done|split; [lia|by right]]]].
Qed.

(** Any sequence of mutations (upserts, appended messages, cleared
    histories, [perform_maintenance]) writes neither file and consumes no
    write, and keeps at most one pending save task, the newest. *)
Theorem mutations_never_write (st : DataManager) (mus : list mutation) :
  single_pending st ->
  let st' := apply_mutations st mus in
  styles_file st' = styles_file st /\ chat_history_file st' = chat_history_file st /\
  io st' = io st /\ single_pending st'.
Proof.
  unfold apply_mutations. revert st.
  induction mus as [|mu mus IH]; intros st Hp; simpl; [done|].
  destruct (apply_mutation_frame st mu) as (Hf & Hh & Hio & _ & Hcase).
  assert (Hp' : single_pending (apply_mutation st mu)).
  { destruct Hcase as [->|Ht]; [exact Hp|by right]. }
  destruct (IH _ Hp') as (Hf' & Hh' & Hio' & Hp'').
  split; [congruence|split; [congruence|split; [congruence|exact Hp'']]].
Qed.

(** ** Flushing *)

(** [force_save] cancels the pending task; with nothing dirty it writes
    nothing; when its writes succeed every dirty domain is on disk and both
    flags are clear. *)
Theorem force_save_spec (st : DataManager) :
  save_timer (force_save st) = None /\
  styles (force_save st) = styles st /\ chat_history (force_save st) = chat_history st /\
  (dirty_styles st = false -> dirty_chat_history st = false ->
     force_save st = set_save_timer None st) /\
  (writes_succeed st ->
     (dirty_styles st = true -> styles_file (force_save st) = FileJson (styles st)) /\
     (dirty_chat_history st = true ->
        chat_history_file (force_save st) = FileJson (chat_history st)) /\
     dirty_styles (force_save st) = false /\ dirty_chat_history (force_save st) = false).
Proof.
  split; [|split; [|split; [|split]]].
  - destruct st as [? ? [] [] [] ? ? ? [|[] [|[] ?]]]; reflexivity.
  - destruct st as [? ? [] [] [] ? ? ? [|[] [|[] ?]]]; reflexivity.
  - destruct st as [? ? [] [] [] ? ? ? [|[] [|[] ?]]]; reflexivity.
  - destruct st as [? ? ds dc [] ? ? ? ?]; simpl; intros -> ->; reflexivity.
  - unfold writes_succeed. intros H. io_cases st; repeat split; discriminate.
Qed.

(** The delayed save writes the dirty domains, then forgets its task; with
    nothing dirty it writes nothing. *)
Theorem delayed_save_spec (st : DataManager) :
  save_timer (_delayed_save st) = None /\
  (dirty_styles st = false -> dirty_chat_history st = false ->
     _delayed_save st = set_save_timer None st) /\
  (writes_succeed st ->
     (dirty_styles st = true -> styles_file (_delayed_save st) = FileJson (styles st)) /\
     (dirty_chat_history st = true ->
        chat_history_file (_delayed_save st) = FileJson (chat_history st)) /\
     dirty_styles (_delayed_save st) = false /\ dirty_chat_history (_delayed_save st) = false).
Proof.
  split; [|split].
  - destruct st as [? ? [] [] ? ? ? ? [|[] [|[] ?]]]; reflexivity.
  - destruct st as [? ? ds dc ? ? ? ? ?]; simpl; intros -> ->; reflexivity.
  - unfold writes_succeed. intros H. io_cases st; repeat split; discriminate.
Qed.

(** ** Repeated learning of one trait *)

Lemma upsert_single (st : DataManager) (session_id c t : string) (p c0 l0 now : Z) :
  styles st !! session_id = Some [mkStyle c t p c0 l0] ->
  styles (add_or_update_style st session_id c t now) !! session_id =
    Some [mkStyle c t (Z.min 100 (p + 10)) c0 now].
Proof.
  intros H. unfold add_or_update_style. rewrite H. simpl. rewrite H. simpl.
  rewrite decide_True by (split; reflexivity). simpl.
  by rewrite lookup_insert_eq.
Qed.

Lemma upsert_times_single (session_id c t : string) (nows : list Z) :
  forall (st : DataManager) (p c0 l0 : Z), p <= 100 ->
  styles st !! session_id = Some [mkStyle c t p c0 l0] ->
  styles (upsert_times st session_id c t nows) !! session_id =
    Some [mkStyle c t (Z.min 100 (p + 10 * Z.of_nat (length nows))) c0 (List.last nows l0)].
Proof.
  unfold upsert_times.
  induction nows as [|now rest IH]; intros st p c0 l0 Hp H; simpl.
  - rewrite H. do 3 f_equal. lia.
  - rewrite (IH _ (Z.min 100 (p + 10)) c0 now); [|lia|exact (upsert_single _ _ _ _ _ _ _ _ H)].
    destruct rest as [|n' rest']; [simpl; do 3 f_equal; lia|].
    do 3 f_equal; [lia|]. simpl. clear. revert n'.
    induction rest' as [|x r IHr]; intros n'; [reflexivity|apply IHr].
Qed.

(** Learning the same trait at the times [now0 :: rest] in a session that
    holds no record yet, whether absent from the map or present with an
    empty list, leaves a single record: its proficiency grows by 10 per
    learning up to 100, it keeps the first time as [created_at] and the last
    one as [last_updated]. *)
Theorem upsert_times_fresh (st : DataManager) (session_id c t : string) (now0 : Z)
    (rest : list Z) :
  get_styles_for_session st session_id = [] ->
  styles (upsert_times st session_id c t (now0 :: rest)) !! session_id =
    Some [mkStyle c t (Z.min 100 (10 * Z.of_nat (S (length rest)))) now0
            (List.last rest now0)].
Proof.
  intros H. unfold get_styles_for_session in H. unfold upsert_times. simpl.
  fold (upsert_times (add_or_update_style st session_id c t now0) session_id c t rest).
  rewrite (upsert_times_single session_id c t rest _ 10 now0 now0); [do 3 f_equal; lia|lia|].
  rewrite add_or_update_style_lookup, H. simpl. by rewrite lookup_insert_eq.
Qed.

(** ** Decay and maintenance *)

Lemma decay_style_idem (now rate : Z) (s : Style) :
  decay_style now rate (decay_style now rate s) = decay_style now rate s.
Proof.
  destruct s as [c t p c0 l0]. unfold decay_style at 2 3. simpl.
  destruct (0 <? Z.quot (now - l0) 86400 * rate) eqn:E.
  - unfold decay_style. simpl. rewrite Z.sub_diag. reflexivity.
  - unfold decay_style. simpl. rewrite E. reflexivity.
Qed.

(** Decaying twice at the same time decays once: the decayed records carry
    the time of the decay, so the second pass finds no elapsed day. *)
Theorem decay_styles_idem (now rate : Z) (m : StyleMap) :
  decay_styles now rate (decay_styles now rate m) = decay_styles now rate m.
Proof.
  unfold decay_styles. rewrite <- map_fmap_compose. apply map_fmap_ext.
  intros i l _. unfold compose. rewrite map_map. apply map_ext. apply decay_style_idem.
Qed.

(** After maintenance no session holds an exhausted record, and no session
    is removed or added, whatever the configuration. *)
Theorem maintenance_positive (cfg : Config) (now : Z) (st : DataManager) :
  map_Forall (fun _ l => Forall (fun s => 0 < proficiency s) l)
    (styles (perform_maintenance cfg now st)) /\
  dom (styles (perform_maintenance cfg now st)) = dom (styles st).
Proof.
  simpl. split.
  - unfold cleanup_styles. apply map_Forall_fmap, map_Forall_fmap.
    intros i l _. unfold compose. apply Forall_cap_session, drop_exhausted_positive.
  - unfold cleanup_styles, decay_styles. by rewrite !dom_fmap_L.
Qed.

Lemma filter_Forall_id {A} (P : A -> Prop) `{!forall x, Decision (P x)} (l : list A) :
  Forall P l -> filter P l = l.
Proof.
  induction 1 as [|x l Hx _ IH]; [done|].
  rewrite filter_cons_True by exact Hx. by rewrite IH.
Qed.

Lemma cleanup_session_fixed (max_styles : Z) (l : list Style) :
  1 <= max_styles ->
  cap_session max_styles (drop_exhausted (cap_session max_styles (drop_exhausted l))) =
    cap_session max_styles (drop_exhausted l).
Proof.
  intros Hmax. set (r := cap_session max_styles (drop_exhausted l)).
  assert (Hpos : Forall (fun s => 0 < proficiency s) r)
    by apply Forall_cap_session, drop_exhausted_positive.
  destruct (cleanup_session_spec max_styles l Hmax) as (_ & Hlen & _).
  fold r in Hlen.
  unfold drop_exhausted at 1. rewrite (filter_Forall_id _ r Hpos).
  unfold cap_session at 1. destruct (Z.ltb_spec max_styles (Z.of_nat (length r)));
    [lia|reflexivity].
Qed.

Lemma map_fmap_fixed {A} (f : A -> A) (m : gmap string A) :
  map_Forall (fun _ x => f x = x) m -> f <$> m = m.
Proof.
  intros H. apply map_eq. intros i. rewrite lookup_fmap.
  destruct (m !! i) eqn:E; simpl; [|done]. by rewrite (H i a E).
Qed.

(** With a cap of at least one, maintenance run twice at the same time
    gives the style map of a single run. *)
Theorem perform_maintenance_idem (cfg : Config) (now : Z) (st : DataManager) :
  1 <= max_styles_per_session cfg ->
  styles (perform_maintenance cfg now (perform_maintenance cfg now st)) =
    styles (perform_maintenance cfg now st).
Proof.
  intros Hmax. simpl.
  set (rate := proficiency_decay_rate cfg). set (mx := max_styles_per_session cfg).
  set (m1 := cleanup_styles mx (decay_styles now rate (styles st))).
  assert (Hfix : decay_styles now rate m1 = m1).
  { apply map_fmap_fixed.
    assert (H : map_Forall (fun _ l => Forall (fun s => decay_style now rate s = s) l) m1).
    { apply cleanup_styles_Forall. unfold decay_styles. apply map_Forall_fmap.
      intros i l _. apply Forall_map, Forall_forall. intros s _. apply decay_style_idem. }
    intros i l Hi. specialize (H i l Hi). simpl in H.
    rewrite <- (map_id l) at 2. apply map_ext_Forall. exact H. }
  rewrite Hfix. subst m1. unfold cleanup_styles. apply map_eq. intros i.
  rewrite !lookup_fmap. destruct (decay_styles now rate (styles st) !! i); simpl; [|done].
  f_equal. apply cleanup_session_fixed. exact Hmax.
Qed.

(** With a cap of at least one, maintenance leaves every session of the
    store with at most [max_styles_per_session] records, all of positive
    proficiency, taken from its decayed records; a session over the cap keeps
    exactly that many, none below an evicted one. *)
Theorem maintenance_keeps_top_records (cfg : Config) (now : Z) (st : DataManager)
    (session_id : string) (l : list Style) :
  1 <= max_styles_per_session cfg ->
  styles st !! session_id = Some l ->
  let kept := drop_exhausted (map (decay_style now (proficiency_decay_rate cfg)) l) in
  exists r, styles (perform_maintenance cfg now st) !! session_id = Some r /\
    Forall (fun s => 0 < proficiency s) r /\
    Z.of_nat (length r) <= max_styles_per_session cfg /\
    (Z.of_nat (length kept) <= max_styles_per_session cfg -> r = kept) /\
    (max_styles_per_session cfg < Z.of_nat (length kept) ->
       Z.of_nat (length r) = max_styles_per_session cfg /\
       exists evicted, r ++ evicted ≡ₚ kept /\
         forall x y, x ∈ r -> y ∈ evicted -> proficiency y <= proficiency x).
Proof.
  intros Hmax Hl kept.
  exists (cap_session (max_styles_per_session cfg) kept). split.
  { simpl. unfold cleanup_styles, decay_styles. by rewrite !lookup_fmap, Hl. }
  split; [apply Forall_cap_session, drop_exhausted_positive|].
  destruct (cleanup_session_spec (max_styles_per_session cfg)
              (map (decay_style now (proficiency_decay_rate cfg)) l) Hmax)
    as (_ & Hlen & Hunder & Hover).
  split; [exact Hlen|split; [exact Hunder|]].
  intros Ho. destruct (Hover Ho) as (Heq & evicted & Hp & Hle & _).
  split; [exact Heq|]. exists evicted. split; [exact Hp|exact Hle].
Qed.

(** * Selection and injection *)

Lemma bool_filter_submseteq {A} (f : A -> bool) (l : list A) : List.filter f l ⊆+ l.
Proof.
  induction l as [|x l IH]; simpl; [done|].
  destruct (f x); [by apply submseteq_skip|by apply submseteq_cons].
Qed.

Lemma bool_filter_elem {A} (f : A -> bool) (l : list A) (x : A) :
  x ∈ List.filter f l <-> x ∈ l /\ f x = true.
Proof. rewrite !list_elem_of_In. apply filter_In. Qed.

(** The weighted selection returns the contents of at most [max_count]
    distinct candidates. *)
Lemma weighted_selection_from (styles0 : list Style) (max_count : Z) (draws : list Q) :
  0 <= max_count ->
  exists chosen, chosen ⊆+ styles0 /\
    _weighted_random_selection styles0 max_count draws = map content chosen /\
    Z.of_nat (length chosen) <= max_count.
Proof.
  intros Hmax. destruct (decide (styles0 = [])) as [->|Hne].
  { exists []. simpl. split; [apply submseteq_nil_l|split; [done|lia]]. }
  pose proof (sort_desc_perm proficiency styles0) as Hp.
  destruct (weighted_selection_cases styles0 max_count draws Hne) as [[_ ->]|[_ ->]].
  - exists (firstn (Z.to_nat max_count) (sort_desc proficiency styles0)).
    split; [|split].
    + rewrite <- Hp at 2.
      rewrite <- (firstn_skipn (Z.to_nat max_count) (sort_desc proficiency styles0)) at 2.
      apply submseteq_inserts_r. done.
    + unfold py_slice_to. by destruct (Z.ltb_spec max_count 0); [lia|].
    + rewrite length_firstn. lia.
  - destruct (selection_loop_picks
                (Z.to_nat (Z.min max_count (Z.of_nat (length (sort_desc proficiency styles0)))))
                (sort_desc proficiency styles0) draws []) as (picked & Hres & Hsub & Hl).
    exists picked. rewrite Hres. split; [by rewrite <- Hp|split; [done|lia]].
Qed.

(** The walk finds a record whenever the draw is within the total. *)
Lemma pick_style_found (r : Q) (cumulative : Z) (l : list Style) :
  l <> [] -> (r <= inject_Z (cumulative + sum_proficiency l))%Q ->
  exists s, pick_style r cumulative l = Some s.
Proof.
  revert cumulative. induction l as [|s rest IH]; intros cumulative Hne Hr; [done|].
  simpl. destruct (Qle_bool r (inject_Z (cumulative + proficiency s))) eqn:E; [by eexists|].
  destruct rest as [|s' rest'].
  - exfalso. simpl in Hr. rewrite Z.add_0_r in Hr. apply Qle_bool_iff in Hr. congruence.
  - apply IH; [done|]. simpl in Hr |- *. by rewrite <- Z.add_assoc.
Qed.

(** [random.random()] draws lie in [0, 1). *)
Definition valid_draws (draws : list Q) : Prop :=
  Forall (fun u => 0 <= u /\ u < 1)%Q draws.

Lemma weighted_selection_selects (styles0 : list Style) (max_count : Z) (draws : list Q) :
  styles0 <> [] -> 1 <= max_count -> valid_draws draws ->
  _weighted_random_selection styles0 max_count draws <> [].
Proof.
  intros Hne Hmax Hd.
  pose proof (sort_desc_perm proficiency styles0) as Hp.
  assert (Hsne : sort_desc proficiency styles0 <> []).
  { intros E. apply Hne. apply Permutation_nil. by rewrite <- E, Hp. }
  destruct (weighted_selection_cases styles0 max_count draws Hne) as [[_ ->]|[Hz ->]].
  - unfold py_slice_to. destruct (Z.ltb_spec max_count 0); [lia|].
    destruct (sort_desc proficiency styles0) as [|s0 rest]; [done|].
    replace (Z.to_nat max_count) with (S (Z.to_nat max_count - 1)) by lia. discriminate.
  - set (sorted := sort_desc proficiency styles0) in *. clearbody sorted.
    destruct sorted as [|s0 rest]; [done|].
    replace (Z.to_nat (Z.min max_count (Z.of_nat (length (s0 :: rest)))))
      with (S (Z.to_nat (Z.min max_count (Z.of_nat (length (s0 :: rest)))) - 1))
      by (simpl length; lia).
    cbn [selection_loop].
    destruct (Z.leb_spec (sum_proficiency (s0 :: rest)) 0); [lia|].
    destruct (next_random draws) as [u draws'] eqn:Eu.
    assert (Hu : (0 <= u /\ u <= 1)%Q).
    { destruct draws as [|u0 ds]; simpl in Eu; injection Eu as <- _.
      - split; discriminate.
      - inversion Hd as [|? ? [H0 H1] _]; subst. split; [exact H0|by apply Qlt_le_weak]. }
    destruct (pick_style_found (inject_Z (sum_proficiency (s0 :: rest)) * u) 0 (s0 :: rest))
      as [s Hs]; [done|..].
    { rewrite Z.add_0_l.
      setoid_rewrite <- (Qmult_1_r (inject_Z (sum_proficiency (s0 :: rest)))) at 2.
      rewrite (Qmult_comm (inject_Z _) u), (Qmult_comm (inject_Z _) 1).
      apply Qmult_le_compat_r; [apply Hu|].
      change (inject_Z 0 <= inject_Z (sum_proficiency (s0 :: rest)))%Q.
      rewrite <- Zle_Qle. lia. }
    rewrite Hs.
    match goal with
    | |- selection_loop ?f _ _ _ <> [] =>
        destruct (selection_loop_picks f (list_remove s (s0 :: rest)) draws' ([] ++ [content s]))
          as (picked & -> & _)
    end.
    discriminate.
Qed.

(** With at least one candidate, [max_count >= 1] and draws of
    [random.random()], the weighted selection selects something, whatever
    the candidates' proficiencies. *)
Theorem weighted_selection_nonempty (styles0 : list Style) (max_count : Z) (draws : list Q) :
  styles0 <> [] -> 1 <= max_count -> valid_draws draws ->
  _weighted_random_selection styles0 max_count draws <> [].
Proof. exact (weighted_selection_selects styles0 max_count draws). Qed.

(** Each list returned by [select_styles_for_session] holds the contents of
    at most [max_styles] distinct records of the session, all of the right
    type and of proficiency at least [min_proficiency]. *)
Theorem select_styles_provenance (st : DataManager) (session_id : string)
    (max_styles min_proficiency : Z) (draws_lang draws_gram : list Q) :
  0 <= max_styles ->
  let res := select_styles_for_session st session_id max_styles min_proficiency
               draws_lang draws_gram in
  let session := get_styles_for_session st session_id in
  (exists chosen, chosen ⊆+ session /\ fst res = map content chosen /\
     Z.of_nat (length chosen) <= max_styles /\
     Forall (fun s => type s = "language_style" /\ min_proficiency <= proficiency s) chosen) /\
  (exists chosen, chosen ⊆+ session /\ snd res = map content chosen /\
     Z.of_nat (length chosen) <= max_styles /\
     Forall (fun s => type s = "grammar_feature" /\ min_proficiency <= proficiency s) chosen).
Proof.
  intros Hmax res session. subst res session.
  unfold select_styles_for_session.
  destruct (get_styles_for_session st session_id) as [|s0 rest] eqn:E.
  { split; exists []; simpl; (split; [apply submseteq_nil_l|split; [done|split; [lia|done]]]). }
  rewrite <- E.
  assert (Hk : forall kind draws, exists chosen,
     chosen ⊆+ get_styles_for_session st session_id /\
     _weighted_random_selection
       (List.filter (is_kind kind min_proficiency) (get_styles_for_session st session_id))
       max_styles draws = map content chosen /\
     Z.of_nat (length chosen) <= max_styles /\
     Forall (fun s => type s = kind /\ min_proficiency <= proficiency s) chosen).
  { intros kind draws.
    destruct (weighted_selection_from
                (List.filter (is_kind kind min_proficiency) (get_styles_for_session st session_id))
                max_styles draws Hmax) as (chosen & Hsub & Hres & Hl).
    exists chosen. split; [etrans; [exact Hsub|apply bool_filter_submseteq]|].
    split; [exact Hres|split; [exact Hl|]].
    apply Forall_forall. intros x Hx.
    pose proof (elem_of_submseteq _ _ _ Hx Hsub) as Hx'.
    apply bool_filter_elem in Hx' as [_ Hb]. unfold is_kind in Hb.
    apply andb_prop in Hb as [H1 H2]. apply String.eqb_eq in H1. apply Z.leb_le in H2.
    split; [exact H1|exact H2]. }
  split; [apply Hk|apply Hk].
Qed.

Lemma should_inject_style_true (cfg : InjectConfig) (st : DataManager) (session_id : string) :
  should_inject_style cfg st session_id = true <->
  enable_style_injection cfg = true /\
  exists s, s ∈ get_styles_for_session st session_id /\
    min_proficiency_for_injection cfg <= proficiency s.
Proof.
  unfold should_inject_style. destruct (enable_style_injection cfg); simpl.
  2: { split; [discriminate|intros [H _]; discriminate]. }
  assert (Hf : forall l : list Style,
    Nat.ltb 0 (length (List.filter (fun s => min_proficiency_for_injection cfg <=? proficiency s) l))
      = true <-> exists s, s ∈ l /\ min_proficiency_for_injection cfg <= proficiency s).
  { intros l. rewrite Nat.ltb_lt. split.
    - intros Hl. destruct (List.filter _ l) as [|x xs] eqn:Ef; [simpl in Hl; lia|].
      exists x. assert (Hx : x ∈ List.filter (fun s => min_proficiency_for_injection cfg <=? proficiency s) l)
        by (rewrite Ef; left).
      apply bool_filter_elem in Hx as [Hx Hb]. split; [exact Hx|by apply Z.leb_le].
    - intros (s & Hs & Hp).
      assert (Hx : s ∈ List.filter (fun s => min_proficiency_for_injection cfg <=? proficiency s) l)
        by (apply bool_filter_elem; split; [exact Hs|by apply Z.leb_le]).
      destruct (List.filter _ l); [by apply not_elem_of_nil in Hx|simpl; lia]. }
  destruct (get_styles_for_session st session_id) as [|s0 rest] eqn:E.
  - split; [discriminate|]. intros [_ (s & Hs & _)]. by apply not_elem_of_nil in Hs.
  - change (Nat.ltb 0 (length (List.filter
      (fun s => min_proficiency_for_injection cfg <=? proficiency s) (s0 :: rest))) = true <->
      true = true /\ exists s, s ∈ s0 :: rest /\ min_proficiency_for_injection cfg <= proficiency s).
    rewrite Hf. split; [intros H; by split|by intros [_ H]].
Qed.

(** Injection is decided by the switch and the presence of one record of
    the session at the injection threshold. *)
Theorem should_inject_style_iff (cfg : InjectConfig) (st : DataManager) (session_id : string) :
  should_inject_style cfg st session_id = true <->
  enable_style_injection cfg = true /\
  exists s, s ∈ get_styles_for_session st session_id /\
    min_proficiency_for_injection cfg <= proficiency s.
Proof. exact (should_inject_style_true cfg st session_id). Qed.

Lemma filter_exclusive_length {A} (f g : A -> bool) (l : list A) :
  (forall x, f x = true -> g x = false) ->
  (length (List.filter f l) + length (List.filter g l) <= length l)%nat.
Proof.
  intros Hx. induction l as [|x l IH]; simpl; [lia|].
  destruct (f x) eqn:Ef; [rewrite (Hx x Ef); simpl; lia|].
  destruct (g x); simpl; lia.
Qed.

(** [get_style_summary] counts the session's records and those at the
    injection threshold; it reports styles exactly when, with injection
    enabled, [should_inject_style] would inject; its two lists hold only
    contents of records at the threshold and together never more than
    their number. *)
Theorem style_summary_consistent (cfg : InjectConfig) (st : DataManager) (session_id : string) :
  let sm := get_style_summary cfg st session_id in
  total_styles sm = length (get_styles_for_session st session_id) /\
  (high_proficiency_styles sm <= total_styles sm)%nat /\
  (length (summary_language_styles sm) + length (summary_grammar_features sm)
     <= high_proficiency_styles sm)%nat /\
  (enable_style_injection cfg = true ->
     has_styles sm = should_inject_style cfg st session_id).
Proof.
  intros sm. subst sm. unfold get_style_summary, should_inject_style.
  destruct (get_styles_for_session st session_id) as [|s0 rest] eqn:E.
  { simpl. split; [done|split; [lia|split; [lia|]]]. intros ->. reflexivity. }
  simpl. split; [done|split; [|split]].
  - destruct (min_proficiency_for_injection cfg <=? proficiency s0); simpl;
      [apply le_n_S|apply le_S]; apply List.filter_length_le.
  - rewrite !length_map. apply filter_exclusive_length.
    intros x Hx. apply String.eqb_eq in Hx. rewrite Hx. reflexivity.
  - intros ->. reflexivity.
Qed.

Lemma build_style_prompt_cases (ls gs : list string) :
  (build_style_prompt ls gs = "" <-> ls = [] /\ gs = []) /\
  (ls <> [] \/ gs <> [] ->
     exists rest, build_style_prompt ls gs = style_prompt_prefix +:+ rest).
Proof.
  split.
  - split; [|by intros [-> ->]].
    destruct ls, gs; [done|discriminate..].
  - intros Hne. destruct ls, gs; [by destruct Hne|by eexists..].
Qed.

(** The style prompt is empty exactly when nothing was selected; otherwise
    it opens with the fixed instruction. *)
Theorem build_style_prompt_shape (ls gs : list string) :
  (build_style_prompt ls gs = "" <-> ls = [] /\ gs = []) /\
  (ls <> [] \/ gs <> [] ->
     exists rest, build_style_prompt ls gs = style_prompt_prefix +:+ rest).
Proof. exact (build_style_prompt_cases ls gs). Qed.

Lemma string_append_empty_r (s : string) : s +:+ "" = s.
Proof. induction s as [|c s IH]; [done|]. change (String c (s +:+ "") = String c s). by rewrite IH. Qed.

(** When the original system prompt is not blank it is kept as the start of
    the injected prompt, whatever the store and the draws. *)
Theorem inject_keeps_original (strip_is_empty : string -> bool) (cfg : InjectConfig)
    (st : DataManager) (session_id original : string) (draws_lang draws_gram : list Q) :
  strip_is_empty original = false ->
  exists suffix, inject_style_to_prompt strip_is_empty cfg st session_id original
                   draws_lang draws_gram = original +:+ suffix.
Proof.
  intros Hs. unfold inject_style_to_prompt.
  destruct (negb _); [exists ""; by rewrite string_append_empty_r|].
  destruct (select_styles_for_session _ _ _ _ _ _) as [ls gs].
  destruct (String.eqb _ _); [exists ""; by rewrite string_append_empty_r|].
  rewrite Hs. exists (newline +:+ newline +:+ build_style_prompt ls gs). reflexivity.
Qed.

Lemma build_style_prompt_language (ls gs : list string) :
  ls <> [] ->
  build_style_prompt ls gs =
    style_prompt_prefix +:+ "语言风格：" +:+ String.concat ", " ls +:+
      match gs with
      | [] => ""
      | _ :: _ => "；语法特征：" +:+ String.concat ", " gs
      end.
Proof.
  intros Hls. destruct ls as [|x xs]; [done|]. destruct gs as [|y ys].
  - rewrite string_append_empty_r. reflexivity.
  - reflexivity.
Qed.

(** With injection enabled, a language style of the session at both the
    injection threshold and the selector's fixed threshold 20, room for one
    style and draws of [random.random()], the selector picks at least one
    language style, and the non-blank system prompt is followed by a blank
    line, the fixed instruction, the selected language styles joined by
    [", "] and, if grammar features were selected, ["；语法特征："] and those
    features joined by [", "]. *)
Theorem inject_appends_styles (strip_is_empty : string -> bool) (cfg : InjectConfig)
    (st : DataManager) (session_id original : string) (draws_lang draws_gram : list Q)
    (s : Style) :
  enable_style_injection cfg = true ->
  s ∈ get_styles_for_session st session_id -> type s = "language_style" ->
  min_proficiency_for_injection cfg <= proficiency s -> 20 <= proficiency s ->
  1 <= max_styles_in_prompt cfg -> valid_draws draws_lang ->
  strip_is_empty original = false ->
  let '(ls, gs) := select_styles_for_session st session_id (max_styles_in_prompt cfg) 20
                     draws_lang draws_gram in
  ls <> [] /\
  inject_style_to_prompt strip_is_empty cfg st session_id original draws_lang draws_gram =
    original +:+ newline +:+ newline +:+ style_prompt_prefix +:+
      "语言风格：" +:+ String.concat ", " ls +:+
      match gs with
      | [] => ""
      | _ :: _ => "；语法特征：" +:+ String.concat ", " gs
      end.
Proof.
  intros Hen Hs Ht Hmin H20 Hmax Hd Hstrip.
  assert (Hinj : should_inject_style cfg st session_id = true)
    by (apply should_inject_style_true; split; [exact Hen|by exists s]).
  unfold inject_style_to_prompt. rewrite Hinj. simpl.
  unfold select_styles_for_session.
  destruct (get_styles_for_session st session_id) as [|s0 rest] eqn:E;
    [by apply not_elem_of_nil in Hs|].
  rewrite <- E.
  set (ls := _weighted_random_selection
               (List.filter (is_kind "language_style" 20) (get_styles_for_session st session_id))
               (max_styles_in_prompt cfg) draws_lang).
  set (gs := _weighted_random_selection
               (List.filter (is_kind "grammar_feature" 20) (get_styles_for_session st session_id))
               (max_styles_in_prompt cfg) draws_gram).
  assert (Hls : ls <> []).
  { apply weighted_selection_selects; [|exact Hmax|exact Hd].
    intros Ef. assert (Hx : s ∈ List.filter (is_kind "language_style" 20)
                                 (get_styles_for_session st session_id)).
    { apply bool_filter_elem. split; [rewrite E; exact Hs|]. unfold is_kind.
      rewrite Ht. apply andb_true_intro. split; [by apply String.eqb_eq|by apply Z.leb_le]. }
    rewrite Ef in Hx. by apply not_elem_of_nil in Hx. }
  split; [exact Hls|].
  rewrite (build_style_prompt_language ls gs Hls).
  destruct (String.eqb_spec (style_prompt_prefix +:+ "语言风格：" +:+ String.concat ", " ls +:+
              match gs with [] => "" | _ :: _ => "；语法特征：" +:+ String.concat ", " gs end) "")
    as [Hz|_]; [discriminate|].
  rewrite Hstrip. reflexivity.
Qed.

(** * Learning *)

(** Keys [(content, type)] of a session's records. *)
Definition session_keys (st : DataManager) (session_id : string) : list (string * string) :=
  map style_key (get_styles_for_session st session_id).

Lemma upsert_scan_Some_key (c t : string) (now : Z) (l l' : list Style) :
  upsert_scan c t now l = Some l' -> (c, t) ∈ map style_key l.
Proof.
  revert l'. induction l as [|s l IH]; intros l' H; simpl in H; [done|].
  simpl. rewrite elem_of_cons.
  destruct (decide (style_matches c t s)) as [[Hc Ht]|_].
  - left. unfold style_key. by rewrite Hc, Ht.
  - destruct (upsert_scan c t now l) eqn:E; [|done]. right. exact (IH _ eq_refl).
Qed.

Lemma add_or_update_style_others (st : DataManager) (session_id c t : string) (now : Z) :
  let st' := add_or_update_style st session_id c t now in
  chat_history st' = chat_history st /\ styles_file st' = styles_file st /\
  chat_history_file st' = chat_history_file st /\ io st' = io st.
Proof.
  unfold add_or_update_style.
  destruct (styles st !! session_id); destruct (upsert_scan _ _ _ _); simpl; auto.
Qed.

(** An upsert keeps every key of the session and adds its own. *)
Lemma add_or_update_style_keys (st : DataManager) (session_id c t : string) (now : Z) :
  let st' := add_or_update_style st session_id c t now in
  (c, t) ∈ session_keys st' session_id /\
  (forall k, k ∈ session_keys st session_id -> k ∈ session_keys st' session_id).
Proof.
  unfold session_keys, get_styles_for_session. simpl.
  rewrite add_or_update_style_lookup, lookup_insert_eq. simpl.
  set (l := default [] (styles st !! session_id)).
  destruct (upsert_scan c t now l) as [l'|] eqn:E.
  - rewrite (upsert_scan_keys _ _ _ _ _ E). split; [exact (upsert_scan_Some_key _ _ _ _ _ E)|done].
  - rewrite map_app. simpl. split.
    + apply elem_of_app. right. by apply elem_of_cons; left.
    + intros k Hk. apply elem_of_app. by left.
Qed.

Lemma upsert_all_others (items : list string) :
  forall (st : DataManager) (session_id t : string) (clock : nat -> Z) (k : nat),
  let st' := upsert_all st session_id items t clock k in
  chat_history st' = chat_history st /\ styles_file st' = styles_file st /\
  chat_history_file st' = chat_history_file st /\ io st' = io st.
Proof.
  induction items as [|c rest IH]; intros st session_id t clock k; simpl; [auto|].
  destruct (IH (add_or_update_style st session_id c t (clock k)) session_id t clock (S k))
    as (H1 & H2 & H3 & H4).
  destruct (add_or_update_style_others st session_id c t (clock k)) as (G1 & G2 & G3 & G4).
  split; [congruence|split; [congruence|split; congruence]].
Qed.

Lemma upsert_all_keys (items : list string) :
  forall (st : DataManager) (session_id t : string) (clock : nat -> Z) (k : nat),
  let st' := upsert_all st session_id items t clock k in
  (forall c, c ∈ items -> (c, t) ∈ session_keys st' session_id) /\
  (forall key, key ∈ session_keys st session_id -> key ∈ session_keys st' session_id).
Proof.
  induction items as [|c rest IH]; intros st session_id t clock k; simpl.
  { split; [intros c Hc; by apply not_elem_of_nil in Hc|done]. }
  destruct (IH (add_or_update_style st session_id c t (clock k)) session_id t clock (S k))
    as [Hnew Hkeep].
  destruct (add_or_update_style_keys st session_id c t (clock k)) as [Hc Hold].
  split.
  - intros c' Hc'. apply elem_of_cons in Hc' as [->|Hc']; [apply Hkeep, Hc|exact (Hnew c' Hc')].
  - intros key Hk. apply Hkeep, Hold, Hk.
Qed.

Lemma store_results_learns (st : DataManager) (session_id : string)
    (ls gs : list string) (clock : nat -> Z) :
  let st' := store_results st session_id ls gs clock in
  (forall c, c ∈ ls -> (c, "language_style") ∈ session_keys st' session_id) /\
  (forall c, c ∈ gs -> (c, "grammar_feature") ∈ session_keys st' session_id) /\
  (forall key, key ∈ session_keys st session_id -> key ∈ session_keys st' session_id) /\
  chat_history st' = chat_history st.
Proof.
  unfold store_results.
  destruct (upsert_all_keys ls st session_id "language_style" clock 0) as [Hl Hk1].
  destruct (upsert_all_keys gs (upsert_all st session_id ls "language_style" clock 0)
              session_id "grammar_feature" clock (length ls)) as [Hg Hk2].
  destruct (upsert_all_others ls st session_id "language_style" clock 0) as [Hc1 _].
  destruct (upsert_all_others gs (upsert_all st session_id ls "language_style" clock 0)
              session_id "grammar_feature" clock (length ls)) as [Hc2 _].
  split; [intros c Hc; apply Hk2, Hl, Hc|split; [exact Hg|split]].
  - intros key Hk. apply Hk2, Hk1, Hk.
  - congruence.
Qed.

(** Storing parsed results makes every learned trait a record of the
    session under its type, and loses no record key of the session. *)
Theorem store_results_keys (st : DataManager) (session_id : string)
    (ls gs : list string) (clock : nat -> Z) :
  let st' := store_results st session_id ls gs clock in
  (forall c, c ∈ ls -> (c, "language_style") ∈ session_keys st' session_id) /\
  (forall c, c ∈ gs -> (c, "grammar_feature") ∈ session_keys st' session_id) /\
  (forall key, key ∈ session_keys st session_id -> key ∈ session_keys st' session_id) /\
  chat_history st' = chat_history st.
Proof. exact (store_results_learns st session_id ls gs clock). Qed.

Lemma get_chat_history_length_100 (st : DataManager) (session_id : string) :
  (length (get_chat_history st session_id 100) <= 100)%nat.
Proof.
  rewrite get_chat_history_positive_limit by lia. rewrite length_skipn. lia.
Qed.

(** [get_chat_history(limit=100)] returns at most 100 messages, so with
    [min_history_for_analysis] above 100 the analysis never runs: the store
    is left as it is, whatever the model replies. *)
Theorem analysis_disabled_above_100 (min_history : Z) (st : DataManager)
    (session_id : string) (resp : llm_outcome) (clock : nat -> Z) :
  100 < min_history -> analyze_and_learn min_history st session_id resp clock = st.
Proof.
  intros H. unfold analyze_and_learn.
  pose proof (get_chat_history_length_100 st session_id).
  destruct (Z.ltb_spec (Z.of_nat (length (get_chat_history st session_id 100))) min_history);
    [reflexivity|lia].
Qed.

(** The analysis never writes a file and consumes no write; the only change
    it can make to the histories is emptying the analysed session's one. *)
Theorem analysis_frame (min_history : Z) (st : DataManager) (session_id : string)
    (resp : llm_outcome) (clock : nat -> Z) :
  let st' := analyze_and_learn min_history st session_id resp clock in
  styles_file st' = styles_file st /\ chat_history_file st' = chat_history_file st /\
  io st' = io st /\
  (chat_history st' = chat_history st \/
   chat_history st' = <[session_id := []]> (chat_history st)).
Proof.
  unfold analyze_and_learn.
  destruct (_ <? min_history); [auto|].
  destruct resp as [|role parsed]; [auto|].
  destruct (String.eqb role "assistant"); [|auto].
  destruct parsed as [ls gs| |done].
  - destruct (upsert_all_others gs (upsert_all st session_id ls "language_style" clock 0)
                session_id "grammar_feature" clock (length ls)) as (H1 & H2 & H3 & H4).
    destruct (upsert_all_others ls st session_id "language_style" clock 0)
      as (G1 & G2 & G3 & G4).
    unfold clear_chat_history, store_results.
    rewrite H1, G1. destruct (chat_history st !! session_id); simpl.
    + split; [congruence|split; [congruence|split; [congruence|by right]]].
    + split; [congruence|split; [congruence|split; [congruence|left; congruence]]].
  - unfold clear_chat_history. destruct (chat_history st !! session_id); simpl; auto.
  - destruct (upsert_all_others done st session_id "language_style" clock 0)
      as (G1 & G2 & G3 & G4). auto.
Qed.

(** Once enough history has accumulated, a reply of the assistant role
    stores every parsed trait under its type, keeps every known trait and
    empties the session's history: later reads return nothing. *)
Theorem analysis_learns_and_clears (min_history : Z) (st : DataManager)
    (session_id : string) (h : list Msg) (ls gs : list string) (clock : nat -> Z) :
  chat_history st !! session_id = Some h ->
  min_history <= Z.of_nat (length (get_chat_history st session_id 100)) ->
  let st' := analyze_and_learn min_history st session_id
               (LlmReply "assistant" (Parsed ls gs)) clock in
  (forall c, c ∈ ls -> (c, "language_style") ∈ session_keys st' session_id) /\
  (forall c, c ∈ gs -> (c, "grammar_feature") ∈ session_keys st' session_id) /\
  (forall key, key ∈ session_keys st session_id -> key ∈ session_keys st' session_id) /\
  (forall limit, get_chat_history st' session_id limit = []).
Proof.
  intros Hh Hmin st'. subst st'. unfold analyze_and_learn.
  destruct (Z.ltb_spec (Z.of_nat (length (get_chat_history st session_id 100))) min_history);
    [lia|]. simpl.
  destruct (store_results_learns st session_id ls gs clock) as (Hl & Hg & Hk & Hc).
  set (st1 := store_results st session_id ls gs clock) in *.
  assert (Hh1 : chat_history st1 !! session_id = Some h) by (rewrite Hc; exact Hh).
  assert (Hs : session_keys (clear_chat_history st1 session_id) session_id =
               session_keys st1 session_id).
  { unfold clear_chat_history. rewrite Hh1. reflexivity. }
  rewrite Hs. split; [exact Hl|split; [exact Hg|split; [exact Hk|]]].
  intros limit. exact (proj1 (clear_chat_history_reads_empty st1 session_id h limit Hh1)).
Qed.

(** A failed call, a reply of another role, or an exception raised while
    storing the parsed traits leaves the history in place, to be analysed
    again with the next messages. *)
Theorem analysis_failure_keeps_history (min_history : Z) (st : DataManager)
    (session_id : string) (resp : llm_outcome) (clock : nat -> Z) :
  (resp = LlmRaised \/
   (exists role parsed, resp = LlmReply role parsed /\ role <> "assistant") \/
   (exists done, resp = LlmReply "assistant" (ParseErrorRaised done))) ->
  chat_history (analyze_and_learn min_history st session_id resp clock) = chat_history st.
Proof.
  intros Hr. unfold analyze_and_learn.
  destruct (_ <? min_history); [reflexivity|].
  destruct Hr as [->|[(role & parsed & -> & Hne)|(done & ->)]]; [reflexivity| |].
  - destruct (String.eqb_spec role "assistant"); [done|reflexivity].
  - simpl. apply (upsert_all_others done st session_id "language_style" clock 0).
Qed.

(** * Instances of the further properties on concrete stores *)

Definition sample_mutations : list mutation :=
  [MUpsert "room" "casual" "language_style" 7; MAddMessage "room" (mkMsg "bob" "yo" 8);
   MClearHistory "room"; MMaintenance default_config 9].

Definition sample_inject_config : InjectConfig := mkInjectConfig true 30 3.

Definition strip_blank (s : string) : bool := String.eqb s "".

Lemma valid_draws_half : valid_draws [(1 # 2)%Q].
Proof. unfold valid_draws. repeat constructor; unfold Qle, Qlt; simpl; lia. Qed.

Lemma clear_chat_history_present_witness :
  chat_history sample_store !! "room" = Some [mkMsg "alice" "hi" 0] /\
  get_chat_history (clear_chat_history sample_store "room") "room" 5 = [].
Proof.
  assert (H : chat_history sample_store !! "room" = Some [mkMsg "alice" "hi" 0])
    by reflexivity.
  split; [exact H|exact (proj1 (clear_chat_history_present sample_store "room" _ 5 H))].
Defined.

Lemma mutations_never_write_witness :
  single_pending sample_store /\
  single_pending (apply_mutations sample_store sample_mutations).
Proof.
  assert (H : single_pending sample_store) by (left; reflexivity).
  split; [exact H|].
  exact (proj2 (proj2 (proj2 (mutations_never_write sample_store sample_mutations H)))).
Defined.

Definition cleared_styles_store : DataManager :=
  set_styles (<[ "lobby" := [] ]> (styles sample_store)) sample_store.

Lemma upsert_times_fresh_witness :
  get_styles_for_session cleared_styles_store "lobby" = [] /\
  styles (upsert_times cleared_styles_store "lobby" "casual" "language_style" [1; 2; 3])
    !! "lobby" =
    Some [mkStyle "casual" "language_style" (Z.min 100 (10 * Z.of_nat (S (length [2; 3])))) 1
            (List.last [2; 3] 1)].
Proof.
  assert (H : get_styles_for_session cleared_styles_store "lobby" = []) by reflexivity.
  split; [exact H|].
  exact (upsert_times_fresh cleared_styles_store "lobby" "casual" "language_style" 1 [2; 3] H).
Defined.

Lemma perform_maintenance_idem_witness :
  1 <= max_styles_per_session default_config /\
  styles (perform_maintenance default_config (3 * 86400)
            (perform_maintenance default_config (3 * 86400) sample_store)) =
    styles (perform_maintenance default_config (3 * 86400) sample_store).
Proof.
  assert (H : 1 <= max_styles_per_session default_config) by (simpl; lia).
  split; [exact H|exact (perform_maintenance_idem default_config _ sample_store H)].
Defined.

Lemma maintenance_keeps_top_records_witness :
  1 <= max_styles_per_session default_config /\
  styles sample_store !! "room" = Some [mkStyle "polite" "language_style" 40 0 0;
                                       mkStyle "inverted word order" "grammar_feature" 100 0 0] /\
  exists r, styles (perform_maintenance default_config (3 * 86400) sample_store) !! "room" = Some r /\
    Z.of_nat (length r) <= max_styles_per_session default_config.
Proof.
  assert (H1 : 1 <= max_styles_per_session default_config) by (simpl; lia).
  assert (H2 : styles sample_store !! "room" = Some [mkStyle "polite" "language_style" 40 0 0;
                 mkStyle "inverted word order" "grammar_feature" 100 0 0]) by reflexivity.
  split; [exact H1|split; [exact H2|]].
  destruct (maintenance_keeps_top_records default_config (3 * 86400) sample_store "room" _ H1 H2)
    as (r & Hr & _ & Hlen & _).
  exists r. split; [exact Hr|exact Hlen].
Defined.

Lemma weighted_selection_nonempty_witness :
  [mkStyle "a" "language_style" 30 0 0; mkStyle "b" "language_style" 0 0 0] <> [] /\
  1 <= 1 /\ valid_draws [(1 # 2)%Q] /\
  _weighted_random_selection
    [mkStyle "a" "language_style" 30 0 0; mkStyle "b" "language_style" 0 0 0] 1
    [(1 # 2)%Q] <> [].
Proof.
  assert (H1 : [mkStyle "a" "language_style" 30 0 0; mkStyle "b" "language_style" 0 0 0] <> [])
    by discriminate.
  assert (H2 : 1 <= 1) by lia.
  split; [exact H1|split; [exact H2|split; [exact valid_draws_half|]]].
  exact (weighted_selection_nonempty _ 1 _ H1 H2 valid_draws_half).
Defined.

Lemma select_styles_provenance_witness :
  0 <= 2 /\
  exists chosen, chosen ⊆+ get_styles_for_session sample_store "room" /\
    fst (select_styles_for_session sample_store "room" 2 20 [(1 # 2)%Q] [(1 # 3)%Q]) =
      map content chosen /\
    Z.of_nat (length chosen) <= 2 /\
    Forall (fun s => type s = "language_style" /\ 20 <= proficiency s) chosen.
Proof.
  assert (H : 0 <= 2) by lia. split; [exact H|].
  exact (proj1 (select_styles_provenance sample_store "room" 2 20 _ _ H)).
Defined.

Lemma inject_keeps_original_witness :
  strip_blank "You are a helpful assistant." = false /\
  exists suffix, inject_style_to_prompt strip_blank sample_inject_config sample_store "room"
                   "You are a helpful assistant." [(1 # 2)%Q] [(1 # 2)%Q] =
                 "You are a helpful assistant." +:+ suffix.
Proof.
  assert (H : strip_blank "You are a helpful assistant." = false) by reflexivity.
  split; [exact H|exact (inject_keeps_original _ _ _ _ _ _ _ H)].
Defined.

Lemma inject_appends_styles_witness :
  let s := mkStyle "polite" "language_style" 40 0 0 in
  enable_style_injection sample_inject_config = true /\
  s ∈ get_styles_for_session sample_store "room" /\ type s = "language_style" /\
  min_proficiency_for_injection sample_inject_config <= proficiency s /\
  20 <= proficiency s /\ 1 <= max_styles_in_prompt sample_inject_config /\
  valid_draws [(1 # 2)%Q] /\ strip_blank "You are a helpful assistant." = false /\
  inject_style_to_prompt strip_blank sample_inject_config sample_store "room"
    "You are a helpful assistant." [(1 # 2)%Q] [(1 # 2)%Q] =
  "You are a helpful assistant." +:+ newline +:+ newline +:+ style_prompt_prefix +:+
    "语言风格：" +:+ String.concat ", " ["polite"] +:+
    "；语法特征：" +:+ String.concat ", " ["inverted word order"].
Proof.
  intros s.
  assert (H1 : enable_style_injection sample_inject_config = true) by reflexivity.
  assert (H2 : s ∈ get_styles_for_session sample_store "room")
    by (apply list_elem_of_In; vm_compute; left; reflexivity).
  assert (H3 : type s = "language_style") by reflexivity.
  assert (H4 : min_proficiency_for_injection sample_inject_config <= proficiency s)
    by (simpl; lia).
  assert (H5 : 20 <= proficiency s) by (simpl; lia).
  assert (H6 : 1 <= max_styles_in_prompt sample_inject_config) by (simpl; lia).
  assert (H8 : strip_blank "You are a helpful assistant." = false) by reflexivity.
  repeat (split; [assumption || exact valid_draws_half|]).
  pose proof (inject_appends_styles strip_blank sample_inject_config sample_store "room"
           "You are a helpful assistant." [(1 # 2)%Q] [(1 # 2)%Q] s
           H1 H2 H3 H4 H5 H6 valid_draws_half H8) as Hth.
  vm_compute in Hth. vm_compute. exact (proj2 Hth).
Defined.

Lemma analysis_disabled_above_100_witness :
  100 < 101 /\
  analyze_and_learn 101 sample_store "room" (LlmReply "assistant" (Parsed ["casual"] []))
    (fun k => Z.of_nat k) = sample_store.
Proof.
  assert (H : 100 < 101) by lia. split; [exact H|].
  exact (analysis_disabled_above_100 101 sample_store "room" _ _ H).
Defined.

Lemma analysis_learns_and_clears_witness :
  chat_history sample_store !! "room" = Some [mkMsg "alice" "hi" 0] /\
  1 <= Z.of_nat (length (get_chat_history sample_store "room" 100)) /\
  forall limit, get_chat_history
    (analyze_and_learn 1 sample_store "room" (LlmReply "assistant" (Parsed ["casual"] ["ellipsis"]))
       (fun k => Z.of_nat k)) "room" limit = [].
Proof.
  assert (H1 : chat_history sample_store !! "room" = Some [mkMsg "alice" "hi" 0]) by reflexivity.
  assert (H2 : 1 <= Z.of_nat (length (get_chat_history sample_store "room" 100)))
    by (vm_compute; discriminate).
  split; [exact H1|split; [exact H2|]].
  exact (proj2 (proj2 (proj2 (analysis_learns_and_clears 1 sample_store "room" _
                                ["casual"] ["ellipsis"] (fun k => Z.of_nat k) H1 H2)))).
Defined.

Lemma analysis_failure_keeps_history_witness :
  (LlmReply "user" ParseErrorLogged = LlmRaised \/
   (exists role parsed, LlmReply "user" ParseErrorLogged = LlmReply role parsed /\
      role <> "assistant") \/
   (exists done, LlmReply "user" ParseErrorLogged = LlmReply "assistant" (ParseErrorRaised done))) /\
  chat_history (analyze_and_learn 1 sample_store "room" (LlmReply "user" ParseErrorLogged)
                  (fun k => Z.of_nat k)) = chat_history sample_store.
Proof.
  assert (H : LlmReply "user" ParseErrorLogged = LlmRaised \/
   (exists role parsed, LlmReply "user" ParseErrorLogged = LlmReply role parsed /\
      role <> "assistant") \/
   (exists done, LlmReply "user" ParseErrorLogged = LlmReply "assistant" (ParseErrorRaised done))).
  { right. left. exists "user", ParseErrorLogged. split; [reflexivity|discriminate]. }
  split; [exact H|exact (analysis_failure_keeps_history 1 sample_store "room" _ _ H)].
Defined.

Lemma run_maintenance_step_writes_witness :
  writes_succeed sample_store /\
  styles_file (run_maintenance_step default_config 0 sample_store) =
    FileJson (styles (run_maintenance_step default_config 0 sample_store)).
Proof.
  assert (H : writes_succeed sample_store) by constructor.
  split; [exact H|exact (proj1 (run_maintenance_step_writes default_config 0 sample_store H))].
Defined.
